(** * react-state: a shallow embedding of [src/index.tsx]

    The library shares the value computed by a "model" function between
    React components: a [Provider] runs the model in a [Processor], stores
    the result in a [Container] and notifies the listeners that [useModel]
    registered.  This file embeds the code of [src/index.tsx] function by
    function, with explicit state, and proves the properties claimed of it. *)

From stdpp Require Import gmap strings list fin_maps.

(** ** JavaScript values

    What the code does with a value is test it ([!state], [deps],
    [model.context]) and compare it with [===].  Objects, arrays and
    functions are references; numbers are the integers and [NaN].  A
    function value is kept apart from the other objects because React's
    state hook calls one that it is handed; what the call returns is in
    the world below. *)

Inductive value : Type :=
  | VUndefined
  | VNull
  | VBool (b : bool)
  | VNum (n : Z)
  | VNaN
  | VStr (s : string)
  | VObj (r : nat)
  | VFun (f : nat).

Global Instance value_eq_dec : EqDecision value.
Proof. solve_decision. Defined.

(** [ToBoolean]: what [if (v)] and [!v] look at. *)
Definition truthy (v : value) : bool :=
  match v with
  | VUndefined | VNull | VNaN => false
  | VBool b => b
  | VNum n => negb (n =? 0)%Z
  | VStr s => negb (String.eqb s EmptyString)
  | VObj _ | VFun _ => true
  end.

(** [v1 === v2]: equal primitives or the same reference; [NaN] equals nothing. *)
Definition strict_eq (v1 v2 : value) : bool :=
  match v1, v2 with
  | VNaN, _ | _, VNaN => false
  | _, _ => bool_decide (v1 = v2)
  end.

(** How a call ends: with a result, or with a thrown [Error] and its message. *)
Inductive completion (A : Type) : Type :=
  | Normal (a : A)
  | Throw (message : string).
Arguments Normal {A} a.
Arguments Throw {A} message.

(** An array may have holes ([new Array(3)], [[1, , 3]]): a position is
    [Some v] when it holds [v] and [None] when it is a hole.  The length
    counts the holes. *)
Abbreviation array := (list (option value)).

(** An array without holes. *)
Definition dense (a : array) : Prop := None ∉ a.

(** [a[i]]: reading a hole, or past the end, gives [undefined]. *)
Definition index (a : array) (i : nat) : value :=
  default VUndefined (mjoin (a !! i)).

(** [f(...a)]: spreading reads every position, a hole as [undefined]. *)
Definition spread (a : array) : list value := default VUndefined <$> a.

(** ** [isEquals] (index.tsx, lines 154-159) *)

(** [a.every((v, i) => p(v, i))], the callback receiving the element and its
    position.  [Array.prototype.every] does not call it for a hole. *)
Fixpoint every_from {A : Type} (p : A → nat → bool) (i : nat) (a : list (option A)) : bool :=
  match a with
  | [] => true
  | None :: rest => every_from p (S i) rest
  | Some v :: rest => if p v i then every_from p (S i) rest else false
  end.

Definition every {A : Type} (p : A → nat → bool) (a : list (option A)) : bool :=
  every_from p 0 a.

Definition isEquals (v1 v2 : array) : bool :=
  if negb (length v1 =? length v2) then false
  else every (λ v i, strict_eq v (index v2 i)) v1.

(** The comparator as the design describes it: same length and [===] at
    every position. *)
Definition shallow_equal (v1 v2 : array) : Prop :=
  length v1 = length v2 ∧
  ∀ i, i < length v1 → strict_eq (index v1 i) (index v2 i) = true.

(** Two vectors differ when their lengths do or when some position reads
    as two different values. *)
Definition vectors_differ (v1 v2 : array) : Prop :=
  length v1 ≠ length v2 ∨ ∃ i, i < length v1 ∧ index v1 i ≠ index v2 i.

(** What [isEquals] compares: the lengths, and every position of the first
    vector that is not a hole with what the second reads there. *)
Definition equal_where_filled (v1 v2 : array) : Prop :=
  length v1 = length v2 ∧
  ∀ i v, v1 !! i = Some (Some v) → strict_eq v (index v2 i) = true.

(** ** Models and the [Processor] (index.tsx, lines 11-23 and 43-66) *)

(** A model is a function object: it has an identity, a [name], and is called
    with the argument vector spread.  Its [context] property lives in the
    world below. *)
Record Model : Type := {
  model_id : nat;
  name : string;
  run : list value → value;
}.

(** Argument vectors are array objects; [args] holds a reference, or is
    [undefined]. *)
Definition loc : Type := nat.

Module Processor.

(** The props the [Provider] passes down; [onChange] is the Provider's
    handler, modelled with the Provider below. *)
Record Props : Type := {
  model : Model;
  args : option loc;
  memo : option bool;
}.

End Processor.

(** [props.args || []] *)
Definition args_or_empty (arrays : gmap loc array) (a : option loc) : array :=
  match a with
  | Some r => default [] (arrays !! r)
  | None => []
  end.

(** The second argument of [React.memo]: [true] lets React reuse the last
    render of the [Processor]. *)
Definition areEqual (arrays : gmap loc array) (prevProps nextProps : Processor.Props) : bool :=
  if negb (default false (Processor.memo nextProps)) then false
  else if bool_decide (Processor.args prevProps = Processor.args nextProps) then true
  else isEquals (args_or_empty arrays (Processor.args prevProps))
                (args_or_empty arrays (Processor.args nextProps)).

(** A mounted [Processor]: the props of its last render and, as a record of
    what happened, the argument vectors the model was invoked with (the
    arrays that were spread) and the results handed to [onChange]. *)
Record ProcessorInst : Type := {
  rendered : Processor.Props;
  invocations : list array;
  reported : list value;
}.

(** The body of the component: invoke the model, report the result in an
    effect. *)
Definition Processor_render (arrays : gmap loc array) (props : Processor.Props)
    (invoked : list array) (reports : list value) : ProcessorInst :=
  let a := args_or_empty arrays (Processor.args props) in
  let result := run (Processor.model props) (spread a) in
  {| rendered := props; invocations := invoked ++ [a]; reported := reports ++ [result] |}.

Definition Processor_mount (arrays : gmap loc array) (props : Processor.Props) : ProcessorInst :=
  Processor_render arrays props [] [].

(** The parent renders again and passes [nextProps]. *)
Definition Processor_update (arrays : gmap loc array) (inst : ProcessorInst)
    (nextProps : Processor.Props) : ProcessorInst :=
  if areEqual arrays (rendered inst) nextProps then inst
  else Processor_render arrays nextProps (invocations inst) (reported inst).

(** ** [Container] (index.tsx, lines 25-41) *)

(** A subscriber is a function object; the [Set] tells subscribers apart by
    identity. *)
Definition Subscriber : Type := nat.

(** [subscribers] is the [Set] in insertion order. *)
Record Container : Type := {
  state : value;
  subscribers : list Subscriber;
}.

(** [new Container()] *)
Definition new_Container : Container :=
  {| state := VUndefined; subscribers := [] |}.

Definition set_state (v : value) (c : Container) : Container :=
  {| state := v; subscribers := subscribers c |}.

(** [Set.prototype.add]: an element already present keeps its place. *)
Definition sub (c : Container) (s : Subscriber) : Container :=
  if decide (s ∈ subscribers c) then c
  else {| state := state c; subscribers := subscribers c ++ [s] |}.

(** [Set.prototype.delete] *)
Definition unsub (c : Container) (s : Subscriber) : Container :=
  {| state := state c; subscribers := filter (λ s', s' ≠ s) (subscribers c) |}.

Section Listeners.
(** [W] is what the subscribers can reach, [call s w] what calling [s()]
    does to it.  The iteration runs over the set as it is when [notify] is
    called: the subscribers of this library never add to or delete from the
    set they are called from. *)
Context {W : Type}.
Variable call : Subscriber → W → completion W.

(** [subscribers.forEach((sub) => sub())]: the subscribers that were
    called, in the order of the calls, and how the loop ended.  Nothing
    catches what a subscriber throws. *)
Fixpoint forEach (subs : list Subscriber) (w : W) : list Subscriber * completion W :=
  match subs with
  | [] => ([], Normal w)
  | s :: rest =>
      match call s w with
      | Normal w' => let '(called, r) := forEach rest w' in (s :: called, r)
      | Throw e => ([s], Throw e)
      end
  end.

Definition notify (c : Container) (w : W) : list Subscriber * completion W :=
  forEach (subscribers c) w.

(** What the loop leaves behind, also when it is left by a throw.  A
    subscriber that throws is taken to have written nothing before: so it
    is with the one [useModel] registers, whose only call that can throw,
    [deps(container.state)], comes before its writes. *)
Fixpoint reached (subs : list Subscriber) (w : W) : W :=
  match subs with
  | [] => w
  | s :: rest =>
      match call s w with
      | Normal w' => reached rest w'
      | Throw _ => w
      end
  end.

(** The subscribers of a list are called one after the other, each on
    what the one before left, and every one returns. *)
Inductive called_in_turn : list Subscriber → W → W → Prop :=
  | in_turn_nil (w : W) : called_in_turn [] w w
  | in_turn_cons (s : Subscriber) (rest : list Subscriber) (w w1 w' : W) :
      call s w = Normal w1 →
      called_in_turn rest w1 w' →
      called_in_turn (s :: rest) w w'.
End Listeners.


(** ** The world: objects the components share *)

(** [React.createContext(defaultValue)] *)
Record Context : Type := {
  context_id : nat;
  defaultValue : loc;
}.

Global Instance Context_eq_dec : EqDecision Context.
Proof. solve_decision. Defined.

(** A dependency projection is the caller's function: it returns an array
    or throws.  A result whose [length] cannot be read ([null],
    [undefined]) throws at line 135, before anything is written, and
    counts as a throw. *)
Definition Deps : Type := value → completion array.

(** The cells of one [useModel] call site in a mounted component: the
    container and [deps] its subscriber closed over; the state hook, that
    is the state of the last render and the arguments of the [setState]
    calls made since, in order; and [depsRef.current]. *)
Record Hook : Type := {
  hook_container : loc;
  hook_deps : option Deps;
  local_state : value;
  queue : list value;
  depsRef : array;
}.

Record World : Type := {
  containers : gmap loc Container;   (* the Container objects *)
  contexts : gmap nat Context;       (* [model.context], by model *)
  next_context : nat;
  cells : gmap loc value;            (* [.current] of the ref objects *)
  hooks : gmap Subscriber Hook;      (* the mounted [useModel] calls *)
  functions : nat → value → completion value;
    (* what calling the function value [VFun f] on an argument gives;
       a call without argument passes [undefined] *)
}.

(** No object yet; a function value called here returns [undefined]. *)
Definition empty_World : World :=
  {| containers := ∅; contexts := ∅; next_context := 0; cells := ∅; hooks := ∅;
     functions := λ _ _, Normal VUndefined |}.

Definition with_containers (f : gmap loc Container → gmap loc Container) (w : World) : World :=
  {| containers := f (containers w); contexts := contexts w;
     next_context := next_context w; cells := cells w; hooks := hooks w;
     functions := functions w |}.

Definition with_cells (f : gmap loc value → gmap loc value) (w : World) : World :=
  {| containers := containers w; contexts := contexts w;
     next_context := next_context w; cells := f (cells w); hooks := hooks w;
     functions := functions w |}.

Definition with_hooks (f : gmap Subscriber Hook → gmap Subscriber Hook) (w : World) : World :=
  {| containers := containers w; contexts := contexts w;
     next_context := next_context w; cells := cells w; hooks := f (hooks w);
     functions := functions w |}.

Definition with_functions (f : nat → value → completion value) (w : World) : World :=
  {| containers := containers w; contexts := contexts w;
     next_context := next_context w; cells := cells w; hooks := hooks w;
     functions := f |}.

(** [container.state], [undefined] for an object that holds none. *)
Definition container_state (w : World) (c : loc) : value :=
  from_option state VUndefined (containers w !! c).

(** ** [getModelContext] (index.tsx, lines 104-116) *)

(** [new Container()] at a reference nothing else holds. *)
Definition alloc_Container (w : World) : loc * World :=
  let l := fresh (dom (containers w)) in
  (l, with_containers <[l := new_Container]> w).

Definition createContext (d : loc) (m : Model) (w : World) : Context * World :=
  let ctx := {| context_id := next_context w; defaultValue := d |} in
  (ctx,
   {| containers := containers w; contexts := <[model_id m := ctx]> (contexts w);
      next_context := S (next_context w); cells := cells w; hooks := hooks w;
      functions := functions w |}).

Definition getModelContext (m : Model) (container : option loc) (w : World) : Context * World :=
  match contexts w !! model_id m with
  | Some ctx => (ctx, w)
  | None =>
      let '(d, w1) := match container with
                      | Some c => (c, w)
                      | None => alloc_Container w
                      end in
      createContext d m w1
  end.

(** [useContext]: the value of the nearest enclosing [Context.Provider], the
    context's default where there is none.  [scope] maps a context to the
    container its nearest provider passes down. *)
Definition useContext (ctx : Context) (scope : gmap nat loc) : loc :=
  default (defaultValue ctx) (scope !! context_id ctx).

(** ** [Provider] (index.tsx, lines 18-23 and 68-102) *)

Record ProviderProps : Type := {
  model : Model;
  args : option loc;
  memo : option bool;
  modelRef : option loc;
}.

(** A mounted [Provider]: its props, the container [containerRef] holds and
    the [isReady] state. *)
Record ProviderInst : Type := {
  props : ProviderProps;
  container : loc;
  isReady : bool;
}.

(** The first render: [containerRef.current = new Container()], the model's
    context is looked up with that container, [isReady] starts [false]. *)
Definition Provider_mount (p : ProviderProps) (w : World) : ProviderInst * Context * World :=
  let '(c, w1) := alloc_Container w in
  let '(ctx, w2) := getModelContext (model p) (Some c) w1 in
  ({| props := p; container := c; isReady := false |}, ctx, w2).

(** What the [Provider] hands to its [Processor]. *)
Definition Processor_props (p : ProviderProps) : Processor.Props :=
  {| Processor.model := model p; Processor.args := args p; Processor.memo := memo p |}.

(** The writes of [onChange] (lines 84-87): [container.state = value] and,
    with a [modelRef], [props.modelRef.current = value]. *)
Definition onChange_writes (p : ProviderInst) (v : value) (w : World) : World :=
  let w1 := with_containers (alter (set_state v) (container p)) w in
  match modelRef (props p) with
  | Some r => with_cells <[r := v]> w1
  | None => w1
  end.

Section Provider.
Variable call : Subscriber → World → completion World.

(** [onChange]: the instance after [setReady], the subscribers [notify]
    called and how it ended. *)
Definition onChange (p : ProviderInst) (v : value) (w : World)
    : ProviderInst * list Subscriber * completion World :=
  let p' := if negb (isReady p)
            then {| props := props p; container := container p; isReady := true |}
            else p in
  let w2 := onChange_writes p v w in
  let '(called, r) := notify call (default new_Container (containers w2 !! container p)) w2 in
  (p', called, r).
End Provider.

(** ** [useModel] (index.tsx, lines 118-152) *)

Definition not_initialized (m : Model) : string :=
  "The model " +:+ name m +:+ " is not initialized.".

(** The state hook of React.  [useState(init)] on the first render: a
    function value is called, without argument, and what it returns is the
    state; any other value is the state. *)
Definition useState_initial (w : World) (init : value) : completion value :=
  match init with
  | VFun f => functions w f VUndefined
  | _ => Normal init
  end.

(** One queued [setState(action)]: a function value is called on the state
    so far, any other value replaces it. *)
Definition apply_action (w : World) (prev action : value) : completion value :=
  match action with
  | VFun f => functions w f prev
  | _ => Normal action
  end.

(** On a later render the hook applies the queued actions in order. *)
Fixpoint apply_queue (w : World) (s : value) (q : list value) : completion value :=
  match q with
  | [] => Normal s
  | action :: rest =>
      match apply_action w s action with
      | Normal s' => apply_queue w s' rest
      | Throw e => Throw e
      end
  end.

(** The cells after [useState(container.state)] and [useRef([])]: made on
    the first render, read (the queue applied) on a later one. *)
Definition useModel_cells (deps : option Deps) (c : loc) (id : Subscriber) (w : World)
    : completion Hook :=
  match hooks w !! id with
  | Some h =>
      match apply_queue w (local_state h) (queue h) with
      | Normal s => Normal {| hook_container := hook_container h; hook_deps := hook_deps h;
                              local_state := s; queue := []; depsRef := depsRef h |}
      | Throw e => Throw e
      end
  | None =>
      match useState_initial w (container_state w c) with
      | Normal s => Normal {| hook_container := c; hook_deps := deps;
                              local_state := s; queue := []; depsRef := [] |}
      | Throw e => Throw e
      end
  end.

(** One render of a component that calls [useModel(model, deps)]; [id] names
    the call's cells in the component.  What a function called by the state
    hook throws leaves [useModel] as it is; so does the error of line 148. *)
Definition useModel (m : Model) (deps : option Deps) (scope : gmap nat loc)
    (id : Subscriber) (w : World) : completion value * World :=
  let '(ctx, w1) := getModelContext m None w in
  let c := useContext ctx scope in
  match useModel_cells deps c id w1 with
  | Throw e => (Throw e, w1)
  | Normal h =>
      if negb (truthy (local_state h)) then (Throw (not_initialized m), w1)
      else (Normal (local_state h), with_hooks <[id := h]> w1)
  end.

(** [setState(v)]: the call is queued for the next render. *)
Definition setState (v : value) (h : Hook) : Hook :=
  {| hook_container := hook_container h; hook_deps := hook_deps h;
     local_state := local_state h; queue := queue h ++ [v]; depsRef := depsRef h |}.

Definition set_depsRef (d : array) (h : Hook) : Hook :=
  {| hook_container := hook_container h; hook_deps := hook_deps h;
     local_state := local_state h; queue := queue h; depsRef := d |}.

(** The body of [subscriber], on the cells it closes over; [current] is
    [container.state] when it runs.  When [deps] throws nothing has been
    written. *)
Definition subscriber_body (current : value) (h : Hook) : completion Hook :=
  match hook_deps h with
  | None => Normal (setState current h)
  | Some deps =>
      let oldDeps := depsRef h in
      match deps current with
      | Throw e => Throw e
      | Normal newDeps =>
          let h1 := if negb (length newDeps =? 0) && negb (isEquals oldDeps newDeps)
                    then setState current h
                    else h in
          Normal (set_depsRef newDeps h1)
      end
  end.

(** Calling the subscriber that the [useModel] call [id] registered. *)
Definition subscriber (id : Subscriber) (w : World) : completion World :=
  match hooks w !! id with
  | Some h =>
      match subscriber_body (container_state w (hook_container h)) h with
      | Normal h' => Normal (with_hooks <[id := h']> w)
      | Throw e => Throw e
      end
  | None => Normal w
  end.

(** The effect of the first render, [container.sub(subscriber)], and its
    cleanup. *)
Definition useModel_effect (id : Subscriber) (w : World) : World :=
  match hooks w !! id with
  | Some h => with_containers (alter (λ c, sub c id) (hook_container h)) w
  | None => w
  end.

Definition useModel_cleanup (id : Subscriber) (w : World) : World :=
  match hooks w !! id with
  | Some h => with_containers (alter (λ c, unsub c id) (hook_container h)) w
  | None => w
  end.

(** The component unmounts: React runs the cleanup and drops the cells. *)
Definition useModel_unmount (id : Subscriber) (w : World) : World :=
  with_hooks (delete id) (useModel_cleanup id w).

(** ** [Providers] (index.tsx, lines 161-168) *)

Inductive ReactNode : Type :=
  | Text (s : string)
  | ProviderElement (p : ProviderProps) (children : ReactNode).

(** [props.models] is an array object: [reverse()] reverses it in place and
    returns it, [reduce] then folds from its first element.  The result is
    the element and the array store afterwards. *)
Definition Providers (models : loc) (children : ReactNode)
    (arrays : gmap loc (list ProviderProps)) : ReactNode * gmap loc (list ProviderProps) :=
  let arrays' := alter reverse models arrays in
  let reversed := default [] (arrays' !! models) in
  (foldl (λ children providerProps, ProviderElement providerProps children) children reversed,
   arrays').

(** Nesting by hand, the first entry outermost:
    [<Provider {...p1}><Provider {...p2}>...children...</Provider></Provider>]. *)
Fixpoint nested (l : list ProviderProps) (children : ReactNode) : ReactNode :=
  match l with
  | [] => children
  | p :: rest => ProviderElement p (nested rest children)
  end.

(** ** [withModel] (index.tsx, lines 170-189) *)

(** The loop over [Object.keys(models)]: [models] lists the object's
    properties in that order, [slot i] names the cells of the [i]-th
    [useModel] call of the component. *)
Fixpoint withModel_loop (models : list (string * Model)) (slot : nat → Subscriber) (i : nat)
    (scope : gmap nat loc) (modelList : gmap string value) (w : World)
    : completion (gmap string value) * World :=
  match models with
  | [] => (Normal modelList, w)
  | (name, m) :: rest =>
      match useModel m None scope (slot i) w with
      | (Normal v, w1) => withModel_loop rest slot (S i) scope (<[name := v]> modelList) w1
      | (Throw e, w1) => (Throw e, w1)
      end
  end.

(** One render of the wrapper: the props [Component] is rendered with. *)
Definition withModel (models : list (string * Model)) (slot : nat → Subscriber)
    (scope : gmap nat loc) (props : gmap string value) (w : World)
    : completion (gmap string value) * World :=
  match withModel_loop models slot 0 scope ∅ w with
  | (Normal modelList, w1) => (Normal (props ∪ modelList), w1)
  | (Throw e, w1) => (Throw e, w1)
  end.

(** [Consumer] (index.tsx, lines 191-198): [useModel(props.model)], the
    [deps] prop is not passed on. *)
Definition Consumer (m : Model) (deps : option Deps) (children : value → ReactNode)
    (scope : gmap nat loc) (id : Subscriber) (w : World) : completion ReactNode * World :=
  match useModel m None scope id w with
  | (Normal v, w1) => (Normal (children v), w1)
  | (Throw e, w1) => (Throw e, w1)
  end.

(** ** Sequences of calls *)

(** One report of a provider whose listeners are [useModel] calls: the
    world afterwards, also when a listener threw. *)
Definition report (p : ProviderInst) (v : value) (w : World) : World :=
  let w2 := onChange_writes p v w in
  reached subscriber (subscribers (default new_Container (containers w2 !! container p))) w2.

(** A call on the listener set of a container. *)
Inductive SetCall : Type :=
  | Sub (s : Subscriber)
  | Unsub (s : Subscriber).

Definition set_call (c : Container) (o : SetCall) : Container :=
  match o with
  | Sub s => sub c s
  | Unsub s => unsub c s
  end.

(** The parent of a [Processor] renders again and again. *)
Definition Processor_updates (arrays : gmap loc array) (inst : ProcessorInst)
    (renders : list Processor.Props) : ProcessorInst :=
  foldl (Processor_update arrays) inst renders.

(** [{isReady && props.children}]: what a [Provider] renders below its
    [Processor]. *)
Definition Provider_children (p : ProviderInst) (children : ReactNode) : option ReactNode :=
  if isReady p then Some children else None.

(** A [Provider] whose listeners are [useModel] calls receives the reports
    [vs] one after the other. *)
Fixpoint reports (p : ProviderInst) (vs : list value) (w : World) : ProviderInst * World :=
  match vs with
  | [] => (p, w)
  | v :: rest => reports (onChange subscriber p v w).1.1 rest (report p v w)
  end.

(** The contexts of a world are told apart by [context_id]: every one made
    so far has an id below [next_context], and no two models hold contexts
    with the same id. *)
Definition contexts_wf (w : World) : Prop :=
  (∀ m ctx, contexts w !! m = Some ctx → context_id ctx < next_context w) ∧
  (∀ m1 m2 ctx1 ctx2,
     contexts w !! m1 = Some ctx1 → contexts w !! m2 = Some ctx2 →
     context_id ctx1 = context_id ctx2 → m1 = m2).

(** ** What the statements below speak of *)

(** The vector that [props.args || []] stands for: the array [args] refers
    to, the empty vector when there is no [args]. *)
Definition args_vector (arrays : gmap loc array) (a : option loc) (v : array) : Prop :=
  match a with
  | Some r => arrays !! r = Some v
  | None => v = []
  end.

(** [typeof v === 'function'] *)
Definition is_function (v : value) : Prop := ∃ f, v = VFun f.

(** [useContext]: the container of the nearest provider of the context in
    the scope, the context's default when the scope has none. *)
Definition resolved (ctx : Context) (scope : gmap nat loc) (c : loc) : Prop :=
  scope !! context_id ctx = Some c ∨
  (scope !! context_id ctx = None ∧ defaultValue ctx = c).

(** ** A counter, its provider and a consumer

    The objects of the README's example, used below to run the code on
    concrete inputs. *)

Definition Counter : Model :=
  {| model_id := 0; name := "Counter"; run := λ a, VObj (length a) |}.

(** A model whose result is the number [0]. *)
Definition Zero : Model :=
  {| model_id := 1; name := "Zero"; run := λ _, VNum 0 |}.

Definition counterProps : ProviderProps :=
  {| model := Counter; args := None; memo := None; modelRef := Some 9 |}.

Definition zeroProps : ProviderProps :=
  {| model := Zero; args := None; memo := Some true; modelRef := None |}.

(** A dependency projection that reads a key which stays the same in every
    state object. *)
Definition same_key : Deps :=
  λ v, Normal (match v with VObj _ => [Some (VStr "k")] | _ => [] end).

(** [<Provider model={Counter}>] mounted in an empty world, and the scope its
    children render in. *)
Definition counter_provider : ProviderInst := (Provider_mount counterProps empty_World).1.1.

Definition counter_scope : gmap nat loc :=
  {[ context_id (Provider_mount counterProps empty_World).1.2 := container counter_provider ]}.

(** The provider reports a first state; a child mounts with
    [useModel(Counter, same_key)] in cells [7] and subscribes. *)
Definition world_mounted : World :=
  let w1 := report counter_provider (VObj 1) (Provider_mount counterProps empty_World).2 in
  useModel_effect 7 (useModel Counter (Some same_key) counter_scope 7 w1).2.

(** Two more reports: the first is pulled (nothing was recorded yet), the
    second is not (the projection did not change). *)
Definition world_stale : World :=
  report counter_provider (VObj 3) (report counter_provider (VObj 2) world_mounted).

(** [<Provider model={Zero}>] mounted and its first report made. *)
Definition zero_provider : ProviderInst := (Provider_mount zeroProps empty_World).1.1.

Definition zero_scope : gmap nat loc :=
  {[ context_id (Provider_mount zeroProps empty_World).1.2 := container zero_provider ]}.

Definition world_zero : World :=
  report zero_provider (VNum 0) (Provider_mount zeroProps empty_World).2.

(** Listeners that write their name to a log, and the same with listener [2]
    throwing. *)
Definition logging (s : Subscriber) (log : list Subscriber) : completion (list Subscriber) :=
  Normal (log ++ [s]).

Definition failing (s : Subscriber) (log : list Subscriber) : completion (list Subscriber) :=
  if decide (s = 2) then Throw "boom" else Normal (log ++ [s]).

(** A model whose result is a function, and a world in which every function
    value, when called, returns the string ["called"]. *)
Definition Toggle : Model :=
  {| model_id := 2; name := "Toggle"; run := λ _, VFun 0 |}.

Definition toggleProps : ProviderProps :=
  {| model := Toggle; args := None; memo := None; modelRef := None |}.

Definition calling_World : World :=
  with_functions (λ _ _, Normal (VStr "called")) empty_World.

Definition toggle_provider : ProviderInst := (Provider_mount toggleProps calling_World).1.1.

Definition toggle_scope : gmap nat loc :=
  {[ context_id (Provider_mount toggleProps calling_World).1.2 := container toggle_provider ]}.




(** ** Facts about values and [isEquals] *)

Lemma strict_eq_true_eq (v1 v2 : value) : strict_eq v1 v2 = true → v1 = v2.
Proof.
  unfold strict_eq.
  destruct v1, v2; intros H; try discriminate H;
    by case_bool_decide.
Qed.

Lemma strict_eq_refl (v : value) : v ≠ VNaN → strict_eq v v = true.
Proof.
  intros Hv. unfold strict_eq.
  destruct v; try done; by case_bool_decide.
Qed.

Lemma every_from_true {A : Type} (p : A → nat → bool) (a : list (option A)) (k : nat) :
  every_from p k a = true ↔ ∀ i x, a !! i = Some (Some x) → p x (k + i) = true.
Proof.
  revert k. induction a as [|[v |] rest IH]; intros k; simpl.
  - split; [intros _ i x Hi; by rewrite lookup_nil in Hi | done].
  - destruct (p v k) eqn:Hp.
    + rewrite IH. split.
      * intros H [|i] x Hi; simpl in Hi.
        -- injection Hi as <-. by rewrite Nat.add_0_r.
        -- rewrite Nat.add_succ_r. by apply (H i x).
      * intros H i x Hi. specialize (H (S i) x Hi).
        by rewrite Nat.add_succ_r in H.
    + split; [done |]. intros H. specialize (H 0 v eq_refl).
      rewrite Nat.add_0_r in H. congruence.
  - rewrite IH. split.
    + intros H [|i] x Hi; simpl in Hi; [done |].
      rewrite Nat.add_succ_r. by apply (H i x).
    + intros H i x Hi. specialize (H (S i) x Hi).
      by rewrite Nat.add_succ_r in H.
Qed.

Lemma isEquals_equal_where_filled (v1 v2 : array) :
  isEquals v1 v2 = true ↔ equal_where_filled v1 v2.
Proof.
  unfold isEquals, equal_where_filled, every.
  destruct (length v1 =? length v2) eqn:Hlen; simpl.
  - apply Nat.eqb_eq in Hlen. rewrite every_from_true. simpl. split.
    + intros H. split; [done |]. intros i v Hi. by apply (H i v).
    + intros [_ H] i x Hi. by apply (H i x).
  - apply Nat.eqb_neq in Hlen. split; [done | by intros [? _]].
Qed.

Lemma index_filled (a : array) (i : nat) (v : value) :
  a !! i = Some (Some v) → index a i = v.
Proof. unfold index. by intros ->. Qed.

Lemma dense_lookup (a : array) (i : nat) :
  dense a → i < length a → ∃ v, a !! i = Some (Some v).
Proof.
  intros Hdense Hi. destruct (lookup_lt_is_Some_2 a i Hi) as [[v |] Hx].
  - by exists v.
  - destruct Hdense. apply list_elem_of_lookup. by exists i.
Qed.

Lemma shallow_equal_where_filled (v1 v2 : array) :
  shallow_equal v1 v2 → equal_where_filled v1 v2.
Proof.
  intros [Hlen Hall]. split; [done |]. intros i v Hi.
  specialize (Hall i (lookup_lt_Some _ _ _ Hi)). by rewrite (index_filled _ _ _ Hi) in Hall.
Qed.

Lemma dense_equal_where_filled (v1 v2 : array) :
  dense v1 → equal_where_filled v1 v2 → shallow_equal v1 v2.
Proof.
  intros Hdense [Hlen Hall]. split; [done |]. intros i Hi.
  destruct (dense_lookup v1 i Hdense Hi) as [v Hv].
  rewrite (index_filled _ _ _ Hv). by apply (Hall i).
Qed.

Lemma isEquals_shallow_equal (v1 v2 : array) :
  dense v1 → isEquals v1 v2 = true ↔ shallow_equal v1 v2.
Proof.
  intros Hdense. rewrite isEquals_equal_where_filled. split.
  - by apply dense_equal_where_filled.
  - apply shallow_equal_where_filled.
Qed.

Lemma vectors_differ_not_shallow_equal (v1 v2 : array) :
  vectors_differ v1 v2 → ¬ shallow_equal v1 v2.
Proof.
  intros [Hlen | (i & Hi & Hne)] [Heq Hall]; [done |].
  by apply Hne, strict_eq_true_eq, Hall.
Qed.

(** ** The memoization policy of the [Processor] *)

Lemma args_vector_read (arrays : gmap loc array) (a : option loc) (v : array) :
  args_vector arrays a v → args_or_empty arrays a = v.
Proof. destruct a as [r |]; simpl; [by intros -> | done]. Qed.

Lemma areEqual_true (arrays : gmap loc array) (prevProps nextProps : Processor.Props) :
  areEqual arrays prevProps nextProps = true ↔
  Processor.memo nextProps = Some true ∧
  (Processor.args prevProps = Processor.args nextProps ∨
   equal_where_filled (args_or_empty arrays (Processor.args prevProps))
                      (args_or_empty arrays (Processor.args nextProps))).
Proof.
  unfold areEqual.
  destruct (Processor.memo nextProps) as [[|]|]; simpl;
    try (split; [done | by intros [? _]]).
  case_bool_decide as Hargs.
  - split; [by intros _; split; [| left] | done].
  - rewrite isEquals_equal_where_filled. split.
    + intros H. split; [done | by right].
    + by intros [_ [? | ?]].
Qed.

Lemma Processor_update_skip (arrays : gmap loc array) (inst : ProcessorInst)
    (nextProps : Processor.Props) :
  areEqual arrays (rendered inst) nextProps = true →
  Processor_update arrays inst nextProps = inst.
Proof. unfold Processor_update. by intros ->. Qed.

Lemma Processor_update_invoke (arrays : gmap loc array) (inst : ProcessorInst)
    (nextProps : Processor.Props) :
  areEqual arrays (rendered inst) nextProps = false →
  Processor_update arrays inst nextProps =
    Processor_render arrays nextProps (invocations inst) (reported inst).
Proof. unfold Processor_update. by intros ->. Qed.

(** C2, the code against the claim.  With [memo], the [Processor] was
    rendered with an array of length one whose only position is a hole
    ([new Array(1)]) and is rendered again with another array, [[5]].  The
    vectors differ at position 0 ([undefined] against [5]); [every] does
    not visit the hole, [isEquals] answers [true], and the model is not
    invoked again. *)
Theorem Processor_skips_sparse_previous :
  let arrays : gmap loc array := {[ 1 := [None]; 2 := [Some (VNum 5)] ]} in
  let p a := {| Processor.model := Counter; Processor.args := Some a;
                Processor.memo := Some true |} in
  vectors_differ [None] [Some (VNum 5)] ∧
  isEquals [None] [Some (VNum 5)] = true ∧
  invocations (Processor_update arrays (Processor_mount arrays (p 1)) (p 2)) = [[None]].
Proof.
  split; [| split; reflexivity].
  right. exists 0. split; [simpl; lia | discriminate].
Qed.

(** X22. The policy of the comparator.  When the parent renders again, the
    [Processor] leaves the model alone exactly when [memo] was passed as
    [true] and the previous and the current [args] are the same array (or both absent) or the two vectors
    have the same length and every position of the previous vector that is
    not a hole is [===] to what the current vector reads there.  Otherwise
    the model is invoked once more, with the current vector spread, and its
    result is reported.  For a previous vector without holes the comparison
    is the pairwise [===] of all positions, and two vectors that differ in
    length or in an element are never skipped. *)
Theorem Processor_skip_policy (arrays : gmap loc array) (inst : ProcessorInst)
    (nextProps : Processor.Props) (v1 v2 : array) :
  args_vector arrays (Processor.args (rendered inst)) v1 →
  args_vector arrays (Processor.args nextProps) v2 →
  let after := Processor_update arrays inst nextProps in
  let skippable :=
    Processor.memo nextProps = Some true ∧
    (Processor.args (rendered inst) = Processor.args nextProps ∨ equal_where_filled v1 v2) in
  (invocations after = invocations inst ↔ skippable) ∧
  (skippable → after = inst) ∧
  (¬ skippable →
   invocations after = invocations inst ++ [v2] ∧
   reported after = reported inst ++ [run (Processor.model nextProps) (spread v2)] ∧
   rendered after = nextProps) ∧
  (dense v1 → (equal_where_filled v1 v2 ↔ shallow_equal v1 v2)) ∧
  (dense v1 → vectors_differ v1 v2 → ¬ skippable).
Proof.
  intros Hv1 Hv2 after skippable.
  pose proof (areEqual_true arrays (rendered inst) nextProps) as Hpolicy.
  rewrite (args_vector_read _ _ _ Hv1), (args_vector_read _ _ _ Hv2) in Hpolicy.
  fold skippable in Hpolicy.
  assert (Hdense : dense v1 → equal_where_filled v1 v2 ↔ shallow_equal v1 v2).
  { intros Hd. split; [by apply dense_equal_where_filled | apply shallow_equal_where_filled]. }
  assert (Hdiffer : dense v1 → vectors_differ v1 v2 → ¬ skippable).
  { intros Hd Hdiff [_ [Hsame | Hfilled]].
    - rewrite Hsame in Hv1. assert (v1 = v2) as ->.
      { destruct (Processor.args nextProps); simpl in *; congruence. }
      destruct Hdiff as [? | (i & _ & ?)]; done.
    - by apply (vectors_differ_not_shallow_equal v1 v2), Hdense. }
  destruct (areEqual arrays (rendered inst) nextProps) eqn:Heq.
  - assert (Hskip : skippable) by (by apply Hpolicy).
    assert (Hsame : after = inst) by (by apply Processor_update_skip).
    split; [| split; [| split; [| split]]]; try done.
    split; [done | intros _; by rewrite Hsame].
  - assert (Hno : ¬ skippable) by (intros H; apply Hpolicy in H; congruence).
    assert (Hrun : after = Processor_render arrays nextProps (invocations inst) (reported inst))
      by (by apply Processor_update_invoke).
    assert (Hinv : invocations after = invocations inst ++ [v2]).
    { rewrite Hrun. simpl. by rewrite (args_vector_read _ _ _ Hv2). }
    split; [| split; [| split; [| split]]]; try done.
    + split; [| done]. intros Hsame. rewrite Hinv in Hsame.
      apply (f_equal length) in Hsame. rewrite length_app in Hsame.
      simpl in Hsame. lia.
    + intros _. split; [done |]. rewrite Hrun. simpl.
      by rewrite (args_vector_read _ _ _ Hv2).
Qed.

Lemma Processor_skip_policy_witness :
  let arrays : gmap loc array := {[ 1 := [Some (VNum 5)]; 2 := [Some (VNum 6)] ]} in
  let p a := {| Processor.model := Counter; Processor.args := Some a;
                Processor.memo := Some true |} in
  let inst := Processor_mount arrays (p 1) in
  let v1 : array := [Some (VNum 5)] in
  let v2 : array := [Some (VNum 6)] in
  let after := Processor_update arrays inst (p 2) in
  let skippable :=
    Processor.memo (p 2) = Some true ∧
    (Processor.args (rendered inst) = Processor.args (p 2) ∨ equal_where_filled v1 v2) in
  (invocations after = invocations inst ↔ skippable) ∧
  (skippable → after = inst) ∧
  (¬ skippable →
   invocations after = invocations inst ++ [v2] ∧
   reported after = reported inst ++ [run (Processor.model (p 2)) (spread v2)] ∧
   rendered after = p 2) ∧
  (dense v1 → (equal_where_filled v1 v2 ↔ shallow_equal v1 v2)) ∧
  (dense v1 → vectors_differ v1 v2 → ¬ skippable).
Proof.
  intros arrays p inst v1 v2.
  apply (Processor_skip_policy arrays inst (p 2) v1 v2); reflexivity.
Defined.

(** ** The listener set and [notify] *)




Lemma filter_other_id (s : Subscriber) (l : list Subscriber) :
  s ∉ l → filter (λ s', s' ≠ s) l = l.
Proof.
  induction l as [|a l IH]; [done |].
  intros [Hne Hs]%not_elem_of_cons.
  rewrite filter_cons_True by done. f_equal. by apply IH.
Qed.



Lemma sub_NoDup (c : Container) (s : Subscriber) :
  NoDup (subscribers c) → NoDup (subscribers (sub c s)).
Proof.
  intros Hc. unfold sub. destruct (decide (s ∈ subscribers c)); [done |]. simpl.
  apply NoDup_app. repeat split; [done | | apply NoDup_singleton].
  intros x Hx ->%list_elem_of_singleton. done.
Qed.


Lemma unsub_not_elem (c : Container) (s : Subscriber) : s ∉ subscribers (unsub c s).
Proof. unfold unsub. simpl. rewrite list_elem_of_filter. tauto. Qed.

Section ListenerFacts.
Context {W : Type}.
Variable call : Subscriber → W → completion W.

Lemma forEach_all_normal (subs : list Subscriber) (w : W) :
  (∀ s w0, s ∈ subs → ∃ w1, call s w0 = Normal w1) →
  ∃ w', forEach call subs w = (subs, Normal w').
Proof.
  revert w. induction subs as [|s subs IH]; intros w Hcall; simpl.
  - by exists w.
  - destruct (Hcall s w) as [w1 ->]; [left |].
    destruct (IH w1) as [w' ->]; [| by exists w'].
    intros s' w0 Hs'. apply Hcall. by right.
Qed.

Lemma forEach_throw (pre post : list Subscriber) (t : Subscriber) (e : string) (w w1 : W) :
  forEach call pre w = (pre, Normal w1) →
  call t w1 = Throw e →
  forEach call (pre ++ t :: post) w = (pre ++ [t], Throw e).
Proof.
  revert w. induction pre as [|s pre IH]; intros w Hpre Ht; simpl in *.
  - injection Hpre as ->. by rewrite Ht.
  - destruct (call s w) as [w2 | e2]; [| by destruct pre].
    destruct (forEach call pre w2) as [called r] eqn:Hrest.
    injection Hpre as -> ->. by rewrite (IH w2).
Qed.

Lemma forEach_in_turn (subs called : list Subscriber) (w w' : W) :
  forEach call subs w = (called, Normal w') →
  called = subs ∧ called_in_turn call subs w w'.
Proof.
  revert called w. induction subs as [|s subs IH]; intros called w; simpl.
  - intros [= <- <-]. split; [done | constructor].
  - destruct (call s w) as [w1 | e] eqn:Hs; [| done].
    destruct (forEach call subs w1) as [called1 r] eqn:Hrest.
    intros [= <- ->]. destruct (IH _ _ Hrest) as [-> Hturn].
    split; [done |]. by apply (in_turn_cons call s subs w w1 w').
Qed.


(** C6, as the code has it.  [notify] stops at the first listener that
    throws: the listeners registered before it have been called, it has
    been called, the listeners registered after it are not called, and
    what it threw leaves [notify]. *)
Theorem notify_stops_at_throw (c : Container) (pre post : list Subscriber)
    (t : Subscriber) (e : string) (w w1 : W) :
  subscribers c = pre ++ t :: post →
  forEach call pre w = (pre, Normal w1) →
  call t w1 = Throw e →
  notify call c w = (pre ++ [t], Throw e).
Proof.
  intros Hc Hpre Ht. unfold notify. rewrite Hc. by apply (forEach_throw _ _ _ _ _ w1).
Qed.

Lemma forEach_called (subs : list Subscriber) (w : W) (s : Subscriber) :
  s ∈ (forEach call subs w).1 → s ∈ subs.
Proof.
  revert w. induction subs as [|s' subs IH]; intros w; simpl.
  - intros Hs. by apply elem_of_nil in Hs.
  - destruct (call s' w) as [w1 | e]; simpl.
    + specialize (IH w1). destruct (forEach call subs w1) as [called r]. simpl in *.
      intros [-> | Hs]%elem_of_cons; [left | right; by apply IH].
    + intros ->%list_elem_of_singleton. left.
Qed.

(** X1. A listener that was unsubscribed is not called by a later [notify],
    whatever the other listeners do. *)
Theorem notify_after_unsub (c : Container) (s : Subscriber) (w : W) :
  s ∉ (notify call (unsub c s) w).1.
Proof.
  intros Hs. apply forEach_called in Hs. by apply (unsub_not_elem c s).
Qed.

End ListenerFacts.


(** ** The model's context *)

Lemma getModelContext_bound (m : Model) (container : option loc) (w : World) (ctx : Context) :
  contexts w !! model_id m = Some ctx → getModelContext m container w = (ctx, w).
Proof. unfold getModelContext. by intros ->. Qed.

Lemma getModelContext_hooks (m : Model) (container : option loc) (w : World) :
  hooks (getModelContext m container w).2 = hooks w.
Proof.
  unfold getModelContext. destruct (contexts w !! model_id m); [done |].
  by destruct container.
Qed.

Lemma alloc_Container_fresh (w : World) :
  containers w !! (alloc_Container w).1 = None.
Proof. apply not_elem_of_dom, is_fresh. Qed.

(** C7. The first call of [getModelContext] for a model (its [context] is
    not set yet) creates a context whose default value is the container
    passed, or a new empty [Container] when none is passed, and stores it
    as the model's [context]; every later call for the model returns that
    context and changes nothing, whatever container it is passed. *)
Theorem getModelContext_first_writer_wins (m : Model) (c1 : option loc) (w : World) :
  contexts w !! model_id m = None →
  ∃ ctx w1,
    getModelContext m c1 w = (ctx, w1) ∧
    contexts w1 !! model_id m = Some ctx ∧
    match c1 with
    | Some c => defaultValue ctx = c ∧ containers w1 = containers w
    | None => containers w !! defaultValue ctx = None ∧
              containers w1 = <[defaultValue ctx := new_Container]> (containers w)
    end ∧
    ∀ c2 : option loc, getModelContext m c2 w1 = (ctx, w1).
Proof.
  intros Hfree. unfold getModelContext at 1. rewrite Hfree.
  destruct c1 as [c |]; simpl; eexists _, _; (split; [reflexivity |]);
    (split; [by apply lookup_insert_eq |]); (split; [| intros c2]);
    try (apply getModelContext_bound; by apply lookup_insert_eq).
  - done.
  - split; [apply alloc_Container_fresh | done].
Qed.

(** ** The [Provider]'s [onChange] *)

Lemma onChange_writes_facts (p : ProviderInst) (v : value) (w : World) (c : Container) :
  containers w !! container p = Some c →
  let w2 := onChange_writes p v w in
  containers w2 = <[container p := set_state v c]> (containers w) ∧
  (match modelRef (props p) with
   | Some r => cells w2 = <[r := v]> (cells w)
   | None => cells w2 = cells w
   end) ∧
  contexts w2 = contexts w ∧ hooks w2 = hooks w ∧ functions w2 = functions w ∧
  next_context w2 = next_context w.
Proof.
  intros Hc w2. unfold w2, onChange_writes.
  set (w1 := with_containers (alter (set_state v) (container p)) w).
  assert (Hcs : containers w1 = <[container p := set_state v c]> (containers w)).
  { unfold w1. simpl. apply map_eq. intros l.
    destruct (decide (container p = l)) as [<- | Hne].
    - by rewrite lookup_alter_eq, lookup_insert_eq, Hc.
    - by rewrite lookup_alter_ne, lookup_insert_ne. }
  destruct (modelRef (props p)); simpl; by rewrite <- ?Hcs.
Qed.

Section ProviderFacts.
Variable call : Subscriber → World → completion World.

(** C4. A report writes the value into the [Provider]'s container (the
    container then holds the reported value and the listeners it had; no
    other container changes), copies it into [modelRef.current] when a
    [modelRef] was passed, and then calls [notify] on the container: the
    listeners run in the world that holds the new value.  Nothing compares
    the value with the one the container held: with listeners that return,
    every listener of the container is called, in order, each on what the
    one before left, also when the value is the one already there. *)
Theorem onChange_writes_mirrors_notifies (p : ProviderInst) (v : value) (w : World)
    (c : Container) :
  containers w !! container p = Some c →
  ∃ w2 c2,
    containers w2 !! container p = Some c2 ∧
    state c2 = v ∧ subscribers c2 = subscribers c ∧
    (∀ l, l ≠ container p → containers w2 !! l = containers w !! l) ∧
    match modelRef (props p) with
    | Some r => cells w2 !! r = Some v ∧ ∀ r', r' ≠ r → cells w2 !! r' = cells w !! r'
    | None => cells w2 = cells w
    end ∧
    contexts w2 = contexts w ∧ hooks w2 = hooks w ∧
    isReady (onChange call p v w).1.1 = true ∧
    (onChange call p v w).1.2 = (notify call c2 w2).1 ∧
    (onChange call p v w).2 = (notify call c2 w2).2 ∧
    ((∀ s w0, s ∈ subscribers c → ∃ w1, call s w0 = Normal w1) →
     ∃ w', (onChange call p v w).1.2 = subscribers c ∧
           (onChange call p v w).2 = Normal w' ∧
           called_in_turn call (subscribers c) w2 w').
Proof.
  intros Hc.
  destruct (onChange_writes_facts p v w c Hc) as (Hcs & Hcells & Hctx & Hhooks & _).
  set (w2 := onChange_writes p v w) in *.
  exists w2, (set_state v c).
  assert (Hlook : containers w2 !! container p = Some (set_state v c))
    by (by rewrite Hcs, lookup_insert_eq).
  assert (Hrun : onChange call p v w =
                 (if negb (isReady p)
                  then {| props := props p; container := container p; isReady := true |}
                  else p,
                  (notify call (set_state v c) w2).1, (notify call (set_state v c) w2).2)).
  { unfold onChange. fold w2. rewrite Hlook. simpl.
    by destruct (notify call (set_state v c) w2). }
  split; [done |]. split; [done |]. split; [done |].
  split; [intros l Hl; by rewrite Hcs, lookup_insert_ne |].
  split.
  { destruct (modelRef (props p)) as [r |]; [| done]. rewrite Hcells. split.
    - by rewrite lookup_insert_eq.
    - intros r' Hr'. by rewrite lookup_insert_ne. }
  split; [done |]. split; [done |]. rewrite Hrun. simpl.
  split; [by destruct (isReady p) eqn:Hready |]. split; [done |]. split; [done |].
  intros Hcall. unfold notify. simpl.
  destruct (forEach_all_normal call (subscribers c) w2 Hcall) as [w' Hrun'].
  exists w'. rewrite Hrun'. split; [done |]. split; [done |].
  by apply (forEach_in_turn call _ _ _ _ Hrun').
Qed.
End ProviderFacts.

(** ** The listener of [useModel] *)


Lemma container_state_lookup (w : World) (c : loc) (k : Container) :
  containers w !! c = Some k → container_state w c = state k.
Proof. unfold container_state. by intros ->. Qed.




(** ** What [useModel] returns *)

Lemma useContext_resolved (ctx : Context) (scope : gmap nat loc) (c : loc) :
  resolved ctx scope c → useContext ctx scope = c.
Proof. unfold useContext. by intros [-> | [-> <-]]. Qed.

Lemma useModel_unfold (m : Model) (deps : option Deps) (scope : gmap nat loc)
    (id : Subscriber) (w : World) :
  let w1 := (getModelContext m None w).2 in
  let c := useContext (getModelContext m None w).1 scope in
  useModel m deps scope id w =
    match useModel_cells deps c id w1 with
    | Throw e => (Throw e, w1)
    | Normal h =>
        if negb (truthy (local_state h)) then (Throw (not_initialized m), w1)
        else (Normal (local_state h), with_hooks <[id := h]> w1)
    end.
Proof. intros w1 c. unfold useModel. by destruct (getModelContext m None w). Qed.

Lemma getModelContext_functions (m : Model) (container : option loc) (w : World) :
  functions (getModelContext m container w).2 = functions w.
Proof.
  unfold getModelContext. destruct (contexts w !! model_id m); [done |].
  by destruct container.
Qed.

Lemma apply_queue_ext (w w' : World) (s : value) (q : list value) :
  functions w' = functions w → apply_queue w' s q = apply_queue w s q.
Proof.
  intros Hf. revert s. induction q as [|a q IH]; intros s; [done |]. simpl.
  assert (apply_action w' s a = apply_action w s a) as ->
    by (destruct a; simpl; by rewrite ?Hf).
  destruct (apply_action w s a); [apply IH | done].
Qed.

Lemma apply_queue_values (w : World) (s : value) (q : list value) :
  Forall (λ a, ¬ is_function a) q →
  apply_queue w s q = Normal (default s (last q)).
Proof.
  revert s. induction q as [|a q IH]; intros s Hq; [done |].
  apply Forall_cons in Hq as [Ha Hq]. simpl.
  assert (apply_action w s a = Normal a) as ->.
  { destruct a; try done. destruct Ha. by eexists. }
  rewrite IH by done. destruct q as [|b q]; [done |]. rewrite last_cons_cons.
  destruct (last (b :: q)) eqn:Hlast; [done |]. by apply last_None in Hlast.
Qed.

Lemma useState_initial_value (w : World) (v : value) :
  ¬ is_function v → useState_initial w v = Normal v.
Proof. intros Hv. destruct v; try done. destruct Hv. by eexists. Qed.

Lemma useModel_mounted (m : Model) (deps : option Deps) (scope : gmap nat loc)
    (id : Subscriber) (w : World) (h : Hook) :
  hooks w !! id = Some h →
  Forall (λ a, ¬ is_function a) (queue h) →
  let s := default (local_state h) (last (queue h)) in
  (useModel m deps scope id w).1 =
    if truthy s then Normal s else Throw (not_initialized m).
Proof.
  intros Hh Hq s. rewrite useModel_unfold. unfold useModel_cells.
  rewrite getModelContext_hooks, Hh.
  rewrite (apply_queue_ext w) by apply getModelContext_functions.
  rewrite apply_queue_values by done. fold s. simpl. by destruct (truthy s).
Qed.

Lemma useModel_first_render (m : Model) (deps : option Deps) (scope : gmap nat loc)
    (id : Subscriber) (w : World) (ctx : Context) (c : loc) (k : Container) :
  contexts w !! model_id m = Some ctx →
  resolved ctx scope c →
  containers w !! c = Some k →
  hooks w !! id = None →
  ¬ is_function (state k) →
  useModel m deps scope id w =
    if truthy (state k)
    then (Normal (state k),
          with_hooks <[id := {| hook_container := c; hook_deps := deps;
                                local_state := state k; queue := []; depsRef := [] |}]> w)
    else (Throw (not_initialized m), w).
Proof.
  intros Hctx Hres Hk Hid Hfun. rewrite useModel_unfold.
  rewrite (getModelContext_bound _ _ _ _ Hctx). simpl.
  rewrite (useContext_resolved _ _ _ Hres). unfold useModel_cells.
  rewrite Hid, (container_state_lookup _ _ _ Hk), useState_initial_value by done.
  simpl. by destruct (truthy (state k)).
Qed.

(** C1, as the code has it.  [useModel] looks at the local state of the
    call, not at the container.  On the first render under a context that
    resolves to a container, the local state is the value the container
    holds at that moment (for a value that is not a function): when it is
    [undefined], [useModel] throws the error "not initialized"; when it is
    truthy, [useModel] returns it and keeps it in the call's cells.  On a
    later render the local state is what the cells hold, the state of the
    last render or the value the listener pulled last, whatever the
    container holds by then: [useModel] throws when that is [undefined] and
    returns it when it is truthy. *)
Theorem useModel_local_state (m : Model) (deps : option Deps) (scope : gmap nat loc)
    (id : Subscriber) (w : World) :
  (∀ ctx c k,
     contexts w !! model_id m = Some ctx → resolved ctx scope c →
     containers w !! c = Some k → hooks w !! id = None → ¬ is_function (state k) →
     (state k = VUndefined → useModel m deps scope id w = (Throw (not_initialized m), w)) ∧
     (truthy (state k) = true →
      useModel m deps scope id w =
        (Normal (state k),
         with_hooks <[id := {| hook_container := c; hook_deps := deps;
                               local_state := state k; queue := []; depsRef := [] |}]> w))) ∧
  (∀ h,
     hooks w !! id = Some h → Forall (λ a, ¬ is_function a) (queue h) →
     let s := default (local_state h) (last (queue h)) in
     (s = VUndefined → (useModel m deps scope id w).1 = Throw (not_initialized m)) ∧
     (truthy s = true → (useModel m deps scope id w).1 = Normal s)).
Proof.
  split.
  - intros ctx c k Hctx Hres Hk Hid Hfun.
    rewrite (useModel_first_render m deps scope id w ctx c k) by done.
    split; [by intros -> | by intros ->].
  - intros h Hh Hq s.
    rewrite (useModel_mounted m deps scope id w h Hh Hq). fold s.
    split; [by intros -> | by intros ->].
Qed.

Lemma truthy_false_iff (v : value) :
  truthy v = false ↔ v ∈ [VUndefined; VNull; VBool false; VNum 0; VNaN; VStr ""].
Proof.
  split.
  - destruct v as [| | [|] | n | | str | r | f]; simpl; try done; intros Hf.
    + left.
    + right. left.
    + do 2 right. left.
    + apply negb_false_iff, Z.eqb_eq in Hf as ->. do 3 right. left.
    + do 4 right. left.
    + destruct str; [| done]. do 5 right. left.
  - intros Hin. repeat (apply elem_of_cons in Hin as [-> | Hin]; [done |]).
    by apply elem_of_nil in Hin.
Qed.

(** X17. [useModel] throws 'The model <name> is not initialized.' exactly when
    the local state of the call is falsy, that is [undefined], [null],
    [false], [0], [NaN] or the empty string, and returns the local state
    exactly when it is truthy.  The local state is, on the first render,
    the value of the resolved container, and on a later render the last
    value pulled since the last render or else the state of the last
    render (in both cases for values that are not functions). *)
Theorem useModel_throws_iff_falsy (m : Model) (deps : option Deps) (scope : gmap nat loc)
    (id : Subscriber) (w : World) :
  (∀ ctx c k,
     contexts w !! model_id m = Some ctx → resolved ctx scope c →
     containers w !! c = Some k → hooks w !! id = None → ¬ is_function (state k) →
     ((useModel m deps scope id w).1 = Throw (not_initialized m) ↔ truthy (state k) = false) ∧
     ((useModel m deps scope id w).1 = Normal (state k) ↔ truthy (state k) = true)) ∧
  (∀ h,
     hooks w !! id = Some h → Forall (λ a, ¬ is_function a) (queue h) →
     let s := default (local_state h) (last (queue h)) in
     ((useModel m deps scope id w).1 = Throw (not_initialized m) ↔ truthy s = false) ∧
     ((useModel m deps scope id w).1 = Normal s ↔ truthy s = true)) ∧
  (∀ v, truthy v = false ↔ v ∈ [VUndefined; VNull; VBool false; VNum 0; VNaN; VStr ""]).
Proof.
  split; [| split].
  - intros ctx c k Hctx Hres Hk Hid Hfun.
    rewrite (useModel_first_render m deps scope id w ctx c k) by done.
    by destruct (truthy (state k)).
  - intros h Hh Hq s.
    rewrite (useModel_mounted m deps scope id w h Hh Hq). fold s.
    by destruct (truthy s).
  - apply truthy_false_iff.
Qed.

(** X2. A consumer that renders for the first time where no [Provider] of the
    model is above it, the model's context not made yet: the context is made
    and stored as the model's, with a new empty container at a fresh
    reference as its default value, and [useModel] throws the error "not
    initialized"; no cells are kept for the call. *)
Theorem useModel_without_Provider (m : Model) (deps : option Deps) (scope : gmap nat loc)
    (id : Subscriber) (w : World) :
  contexts w !! model_id m = None →
  scope !! next_context w = None →
  hooks w !! id = None →
  ∃ w1 ctx,
    useModel m deps scope id w = (Throw (not_initialized m), w1) ∧
    contexts w1 !! model_id m = Some ctx ∧
    containers w !! defaultValue ctx = None ∧
    containers w1 = <[defaultValue ctx := new_Container]> (containers w) ∧
    hooks w1 = hooks w.
Proof.
  intros Hctx Hscope Hid. rewrite useModel_unfold.
  unfold getModelContext. rewrite Hctx. simpl.
  unfold useContext. simpl. rewrite Hscope. simpl.
  unfold useModel_cells, container_state. simpl. rewrite Hid, lookup_insert_eq. simpl.
  eexists _, _. split; [reflexivity |]. simpl.
  split; [apply lookup_insert_eq |]. simpl.
  split; [apply alloc_Container_fresh | done].
Qed.

(** ** Nesting by [Providers] *)

Lemma reduce_reverse_nested (l : list ProviderProps) (children : ReactNode) :
  foldl (λ children providerProps, ProviderElement providerProps children) children (reverse l)
  = nested l children.
Proof.
  induction l as [|p l IH]; [done |].
  rewrite reverse_cons, foldl_app. simpl. by rewrite IH.
Qed.

Lemma Providers_run (models : loc) (children : ReactNode)
    (arrays : gmap loc (list ProviderProps)) (l : list ProviderProps) :
  arrays !! models = Some l →
  Providers models children arrays = (nested l children, <[models := reverse l]> arrays).
Proof.
  intros Hl. unfold Providers. rewrite lookup_alter_eq, Hl. simpl.
  rewrite reduce_reverse_nested. f_equal. apply map_eq. intros r.
  destruct (decide (models = r)) as [<- | Hne].
  - by rewrite lookup_alter_eq, lookup_insert_eq, Hl.
  - by rewrite lookup_alter_ne, lookup_insert_ne.
Qed.

(** C8. For the array [props.models] holds when [Providers] is called,
    the element returned is the one nesting single [Provider]s by hand
    gives, the first entry outermost and the last entry innermost, around
    [props.children]. *)
Theorem Providers_nesting (models : loc) (children : ReactNode)
    (arrays : gmap loc (list ProviderProps)) (l : list ProviderProps) :
  arrays !! models = Some l →
  (Providers models children arrays).1 = nested l children.
Proof. intros Hl. by rewrite (Providers_run _ _ _ l). Qed.

(** C9. [Providers] reverses the caller's array in place: afterwards the
    array object holds its elements in the opposite order (no other array
    is touched), so a second call with the same array object nests the
    other way round, the entry that was last now outermost, and leaves the
    array in its first order again. *)
Theorem Providers_reverses_in_place (models : loc) (children children' : ReactNode)
    (arrays : gmap loc (list ProviderProps)) (l : list ProviderProps) :
  arrays !! models = Some l →
  let after := (Providers models children arrays).2 in
  after !! models = Some (reverse l) ∧
  (∀ r, r ≠ models → after !! r = arrays !! r) ∧
  (Providers models children' after).1 = nested (reverse l) children' ∧
  (Providers models children' after).2 !! models = Some l.
Proof.
  intros Hl after. unfold after. rewrite (Providers_run _ _ _ l Hl). cbn [fst snd].
  assert (Hrev : <[models := reverse l]> arrays !! models = Some (reverse l))
    by apply lookup_insert_eq.
  rewrite (Providers_run _ _ _ (reverse l) Hrev). cbn [fst snd].
  split; [done |]. split; [intros r Hr; by rewrite lookup_insert_ne |].
  split; [done |]. by rewrite lookup_insert_eq, reverse_involutive.
Qed.

(** ** The props [withModel] delivers *)





(** ** The code on concrete inputs *)

(** [isEquals] on small vectors: equal contents, a different element, a
    different length, and [NaN], which is [===] to nothing. *)
Example isEquals_same :
  isEquals [Some (VNum 1); Some (VStr "a")] [Some (VNum 1); Some (VStr "a")] = true.
Proof. reflexivity. Qed.

Example isEquals_element :
  isEquals [Some (VNum 1); Some (VObj 4)] [Some (VNum 1); Some (VObj 5)] = false.
Proof. reflexivity. Qed.

Example isEquals_length :
  isEquals [Some (VNum 1)] [Some (VNum 1); Some VUndefined] = false.
Proof. reflexivity. Qed.

Example isEquals_NaN : isEquals [Some VNaN] [Some VNaN] = false.
Proof. reflexivity. Qed.

(** A hole in the first vector is not compared; one in the second reads as
    [undefined]. *)
Example isEquals_hole :
  isEquals [None] [Some (VNum 5)] = true ∧ isEquals [Some (VNum 5)] [None] = false.
Proof. split; reflexivity. Qed.

(** With [memo], a second array with the same contents does not invoke the
    model again; without [memo] it does. *)
Example Processor_memo_skips :
  let arrays : gmap loc array := {[ 1 := [Some (VNum 5)]; 2 := [Some (VNum 5)] ]} in
  let p a := {| Processor.model := Counter; Processor.args := Some a;
                Processor.memo := Some true |} in
  invocations (Processor_update arrays (Processor_mount arrays (p 1)) (p 2))
  = [[Some (VNum 5)]].
Proof. reflexivity. Qed.

Example Processor_no_memo_invokes :
  let arrays : gmap loc array := {[ 1 := [Some (VNum 5)]; 2 := [Some (VNum 5)] ]} in
  let p a := {| Processor.model := Counter; Processor.args := Some a;
                Processor.memo := None |} in
  invocations (Processor_update arrays (Processor_mount arrays (p 1)) (p 2))
  = [[Some (VNum 5)]; [Some (VNum 5)]].
Proof. reflexivity. Qed.

(** C1, a run against the claim.  The [Counter] provider has reported three
    states; the consumer in cells [7], mounted after the first, passes a
    projection that does not change, so its listener pulled the second state
    and skipped the third.  When the consumer renders again, [useModel]
    returns the second state while the container holds the third. *)
Lemma useModel_returns_stale_state :
  (useModel Counter (Some same_key) counter_scope 7 world_stale).1 = Normal (VObj 2) ∧
  container_state world_stale (useContext (getModelContext Counter None world_stale).1 counter_scope)
    = VObj 3.
Proof. split; reflexivity. Qed.

(** The provider of [Zero] has reported the model's result, the number [0];
    a consumer that mounts then is thrown the error "not initialized". *)
Example useModel_throws_on_zero :
  container_state world_zero (container zero_provider) = VNum 0 ∧
  (useModel Zero None zero_scope 7 world_zero).1 = Throw "The model Zero is not initialized.".
Proof. split; reflexivity. Qed.

(** C1 on two runs: the first render of a consumer of [Counter] after the
    provider's first report, and a later render in the world where the
    container holds the third state. *)
Lemma useModel_local_state_witness :
  let w := report counter_provider (VObj 1) (Provider_mount counterProps empty_World).2 in
  useModel Counter (Some same_key) counter_scope 7 w =
    (Normal (VObj 1),
     with_hooks <[7 := {| hook_container := 0; hook_deps := Some same_key;
                          local_state := VObj 1; queue := []; depsRef := [] |}]> w) ∧
  (useModel Counter (Some same_key) counter_scope 7 world_stale).1 = Normal (VObj 2).
Proof.
  intros w.
  destruct (useModel_local_state Counter (Some same_key) counter_scope 7 w) as [Hfirst _].
  destruct (useModel_local_state Counter (Some same_key) counter_scope 7 world_stale)
    as [_ Hlater].
  split.
  - apply (Hfirst {| context_id := 0; defaultValue := 0 |} 0
             {| state := VObj 1; subscribers := [] |}); try reflexivity.
    + left. reflexivity.
    + intros [f Hf]. discriminate Hf.
  - apply (Hlater {| hook_container := 0; hook_deps := Some same_key;
                     local_state := VObj 1; queue := [VObj 2];
                     depsRef := [Some (VStr "k")] |}); try reflexivity.
    repeat constructor. intros [f Hf]. discriminate Hf.
Defined.

(** The error for a reported [0], and a truthy state returned. *)
Lemma useModel_throws_iff_falsy_witness :
  (useModel Zero None zero_scope 7 world_zero).1 = Throw (not_initialized Zero) ∧
  (useModel Counter (Some same_key) counter_scope 7 world_stale).1 = Normal (VObj 2).
Proof.
  destruct (useModel_throws_iff_falsy Zero None zero_scope 7 world_zero) as [Hfirst _].
  destruct (useModel_throws_iff_falsy Counter (Some same_key) counter_scope 7 world_stale)
    as (_ & Hlater & _).
  split.
  - apply (Hfirst {| context_id := 0; defaultValue := 0 |} 0
             {| state := VNum 0; subscribers := [] |}); try reflexivity.
    + left. reflexivity.
    + intros [f Hf]. discriminate Hf.
  - apply (Hlater {| hook_container := 0; hook_deps := Some same_key;
                     local_state := VObj 1; queue := [VObj 2];
                     depsRef := [Some (VStr "k")] |}); try reflexivity.
    repeat constructor. intros [f Hf]. discriminate Hf.
Defined.

(** C6, a run against the claim.  Listeners [1], [2] and [3] are registered
    and [2] throws: [3] is registered and is not called. *)
Lemma notify_throw_skips_rest :
  let c := foldl sub new_Container [1; 2; 3] in
  notify failing c [] = ([1; 2], Throw "boom") ∧
  3 ∈ subscribers c ∧ 3 ∉ (notify failing c []).1.
Proof.
  split; [reflexivity |]. split; [by apply (bool_decide_unpack _) |].
  by apply (bool_decide_unpack _).
Qed.


Example notify_each_once_in_order_run :
  notify logging (foldl sub new_Container [3; 1; 3; 2]) [] = ([3; 1; 2], Normal [3; 1; 2]).
Proof. reflexivity. Qed.

(** C6 on a run: listener [2] of [1], [2], [3] throws. *)
Lemma notify_stops_at_throw_witness :
  notify failing (foldl sub new_Container [1; 2; 3]) [] = ([1] ++ [2], Throw "boom").
Proof.
  apply (notify_stops_at_throw failing (foldl sub new_Container [1; 2; 3])
           [1] [3] 2 "boom" [] [1]); reflexivity.
Defined.

(** C7 on a run: the first call for [Counter] passes container [5]. *)
Lemma getModelContext_first_writer_wins_witness :
  ∃ ctx w1,
    getModelContext Counter (Some 5) empty_World = (ctx, w1) ∧
    contexts w1 !! model_id Counter = Some ctx ∧
    (defaultValue ctx = 5 ∧ containers w1 = containers empty_World) ∧
    ∀ c2 : option loc, getModelContext Counter c2 w1 = (ctx, w1).
Proof.
  apply (getModelContext_first_writer_wins Counter (Some 5) empty_World).
  reflexivity.
Defined.

Example getModelContext_later_container_ignored :
  let w1 := (getModelContext Counter None empty_World).2 in
  (getModelContext Counter (Some 5) w1).1 = (getModelContext Counter None empty_World).1 ∧
  defaultValue (getModelContext Counter (Some 5) w1).1 = 0 ∧
  containers w1 !! 0 = Some new_Container.
Proof. repeat split; reflexivity. Qed.

(** C4 on a run: the [Counter] provider reports once more the state its
    container already holds; the consumer's listener [7] is called. *)
Lemma onChange_writes_mirrors_notifies_witness :
  let p := counter_provider in
  let v := VObj 1 in
  let w := world_mounted in
  let c := {| state := VObj 1; subscribers := [7] |} in
  ∃ w2 c2,
    containers w2 !! container p = Some c2 ∧
    state c2 = v ∧ subscribers c2 = subscribers c ∧
    (∀ l, l ≠ container p → containers w2 !! l = containers w !! l) ∧
    match modelRef (props p) with
    | Some r => cells w2 !! r = Some v ∧ ∀ r', r' ≠ r → cells w2 !! r' = cells w !! r'
    | None => cells w2 = cells w
    end ∧
    contexts w2 = contexts w ∧ hooks w2 = hooks w ∧
    isReady (onChange subscriber p v w).1.1 = true ∧
    (onChange subscriber p v w).1.2 = (notify subscriber c2 w2).1 ∧
    (onChange subscriber p v w).2 = (notify subscriber c2 w2).2 ∧
    ((∀ s w0, s ∈ subscribers c → ∃ w1, subscriber s w0 = Normal w1) →
     ∃ w', (onChange subscriber p v w).1.2 = subscribers c ∧
           (onChange subscriber p v w).2 = Normal w' ∧
           called_in_turn subscriber (subscribers c) w2 w').
Proof.
  intros p v w c.
  apply (onChange_writes_mirrors_notifies subscriber p v w c). reflexivity.
Defined.

Example onChange_same_value_notifies :
  container_state world_mounted (container counter_provider) = VObj 1 ∧
  (onChange subscriber counter_provider (VObj 1) world_mounted).1.2 = [7].
Proof. split; reflexivity. Qed.

(** The consumer in cells [7]: the first report after the mount is pulled,
    the next one is not, and the projected vector is recorded. *)
Example subscriber_pulls_then_skips :
  (queue <$> hooks (report counter_provider (VObj 2) world_mounted) !! 7) = Some [VObj 2] ∧
  (queue <$> hooks world_stale !! 7) = Some [VObj 2] ∧
  (depsRef <$> hooks world_stale !! 7) = Some [Some (VStr "k")].
Proof. repeat split; reflexivity. Qed.

(** C8 and C9 on a run: the array [4] holds the props of [Counter] and of
    [Zero]. *)
Lemma Providers_nesting_witness :
  (Providers 4 (Text "page") {[ 4 := [counterProps; zeroProps] ]}).1
  = nested [counterProps; zeroProps] (Text "page").
Proof.
  apply (Providers_nesting 4 (Text "page") {[ 4 := [counterProps; zeroProps] ]}
           [counterProps; zeroProps]).
  reflexivity.
Defined.

Lemma Providers_reverses_in_place_witness :
  let arrays : gmap loc (list ProviderProps) := {[ 4 := [counterProps; zeroProps] ]} in
  let after := (Providers 4 (Text "page") arrays).2 in
  after !! 4 = Some (reverse [counterProps; zeroProps]) ∧
  (∀ r, r ≠ 4 → after !! r = arrays !! r) ∧
  (Providers 4 (Text "page") after).1 = nested (reverse [counterProps; zeroProps]) (Text "page") ∧
  (Providers 4 (Text "page") after).2 !! 4 = Some [counterProps; zeroProps].
Proof.
  apply (Providers_reverses_in_place 4 (Text "page") (Text "page")
           {[ 4 := [counterProps; zeroProps] ]} [counterProps; zeroProps]).
  reflexivity.
Defined.

Example Providers_twice :
  let arrays : gmap loc (list ProviderProps) := {[ 4 := [counterProps; zeroProps] ]} in
  (Providers 4 (Text "page") arrays).1
    = ProviderElement counterProps (ProviderElement zeroProps (Text "page")) ∧
  (Providers 4 (Text "page") (Providers 4 (Text "page") arrays).2).1
    = ProviderElement zeroProps (ProviderElement counterProps (Text "page")).
Proof. split; reflexivity. Qed.


Example withModel_injects_and_overrides :
  let w := report counter_provider (VObj 1) (Provider_mount counterProps empty_World).2 in
  (withModel [("counter", Counter)] (λ i, 7 + i) counter_scope {[ "title" := VStr "t" ]} w).1
    = Normal {[ "title" := VStr "t"; "counter" := VObj 1 ]} ∧
  (withModel [("counter", Counter)] (λ i, 7 + i) counter_scope
     {[ "title" := VStr "t"; "counter" := VStr "mine" ]} w).1
    = Normal {[ "title" := VStr "t"; "counter" := VStr "mine" ]}.
Proof. split; reflexivity. Qed.

(** No provider at all: a consumer of [Counter] in an empty world. *)
Lemma useModel_without_Provider_witness :
  ∃ w1 ctx,
    useModel Counter None ∅ 7 empty_World = (Throw (not_initialized Counter), w1) ∧
    contexts w1 !! model_id Counter = Some ctx ∧
    containers empty_World !! defaultValue ctx = None ∧
    containers w1 = <[defaultValue ctx := new_Container]> (containers empty_World) ∧
    hooks w1 = hooks empty_World.
Proof.
  apply (useModel_without_Provider Counter None ∅ 7 empty_World); reflexivity.
Defined.

(** The first [Provider] of a model passes its own container as the default
    of the model's context: a consumer outside every provider (empty scope)
    then reads that provider's container. *)
Example useModel_reads_first_Provider_by_default :
  let w := report counter_provider (VObj 1) (Provider_mount counterProps empty_World).2 in
  (useModel Counter None ∅ 8 w).1 = Normal (VObj 1).
Proof. reflexivity. Qed.


(** * Further properties of the code *)

(** ** [isEquals] as a relation *)

Lemma strict_eq_sym (v1 v2 : value) : strict_eq v1 v2 = strict_eq v2 v1.
Proof.
  unfold strict_eq. destruct v1, v2; try done; apply bool_decide_ext; split; congruence.
Qed.

Lemma strict_eq_true_iff (v1 v2 : value) : strict_eq v1 v2 = true ↔ v1 = v2 ∧ v1 ≠ VNaN.
Proof.
  split.
  - intros H. split; [by apply strict_eq_true_eq |]. by intros ->.
  - intros [<- Hv]. by apply strict_eq_refl.
Qed.

Lemma dense_cons (x : option value) (a : array) :
  dense (x :: a) ↔ x ≠ None ∧ dense a.
Proof.
  unfold dense. rewrite not_elem_of_cons.
  split; intros [H1 H2]; (split; [congruence | done]).
Qed.

Lemma index_eq_ext (v1 v2 : array) :
  dense v1 → dense v2 → length v1 = length v2 →
  (∀ i, i < length v1 → index v1 i = index v2 i) → v1 = v2.
Proof.
  revert v2. induction v1 as [|a v1 IH]; intros [|b v2] Hd1 Hd2 Hlen Hall; try done.
  apply dense_cons in Hd1 as [Ha Hd1]. apply dense_cons in Hd2 as [Hb Hd2].
  simpl in Hlen. f_equal.
  - specialize (Hall 0). destruct a, b; try done. unfold index in Hall. simpl in Hall.
    rewrite Hall; [done | lia].
  - apply IH; [done | done | lia |]. intros i Hi. apply (Hall (S i)). simpl. lia.
Qed.

(** X3. For two vectors without holes, [isEquals] holds exactly when they have
    the same elements (equal primitives, the same references) none of
    which is [NaN]: a vector that holds [NaN] is not even equal to
    itself. *)
Theorem isEquals_iff_same_without_NaN (v1 v2 : array) :
  dense v1 → dense v2 →
  isEquals v1 v2 = true ↔ v1 = v2 ∧ Some VNaN ∉ v1.
Proof.
  intros Hd1 Hd2. rewrite isEquals_shallow_equal by done. split.
  - intros [Hlen Hall]. split.
    + apply index_eq_ext; [done .. |]. intros i Hi. by apply strict_eq_true_eq, Hall.
    + intros (i & Hi)%list_elem_of_lookup.
      specialize (Hall i (lookup_lt_Some _ _ _ Hi)).
      apply strict_eq_true_iff in Hall as [_ Hne]. apply Hne.
      by apply index_filled.
  - intros [<- Hnan]. split; [done |]. intros i Hi.
    destruct (dense_lookup v1 i Hd1 Hi) as [x Hx].
    rewrite (index_filled _ _ _ Hx). apply strict_eq_refl. intros ->. apply Hnan.
    apply list_elem_of_lookup. by exists i.
Qed.

Lemma isEquals_iff_same_without_NaN_witness :
  isEquals [Some (VNum 1); Some (VObj 2)] [Some (VNum 1); Some (VObj 2)] = true ↔
  ([Some (VNum 1); Some (VObj 2)] : array) = [Some (VNum 1); Some (VObj 2)] ∧
  Some VNaN ∉ ([Some (VNum 1); Some (VObj 2)] : array).
Proof.
  apply (isEquals_iff_same_without_NaN [Some (VNum 1); Some (VObj 2)]
           [Some (VNum 1); Some (VObj 2)]);
    by apply (bool_decide_unpack _).
Defined.

(** X4. For two vectors without holes the order of the two arguments of
    [isEquals] does not matter. *)
Theorem isEquals_sym (v1 v2 : array) :
  dense v1 → dense v2 → isEquals v1 v2 = isEquals v2 v1.
Proof.
  intros Hd1 Hd2. apply eq_true_iff_eq.
  rewrite !isEquals_shallow_equal by done. unfold shallow_equal.
  split; intros [Hlen Hall]; (split; [done |]); intros i Hi;
    rewrite strict_eq_sym; apply Hall; lia.
Qed.

Lemma isEquals_sym_witness :
  isEquals [Some (VNum 1); Some VNaN] [Some (VNum 1); Some (VObj 2)]
  = isEquals [Some (VNum 1); Some (VObj 2)] [Some (VNum 1); Some VNaN].
Proof.
  apply (isEquals_sym [Some (VNum 1); Some VNaN] [Some (VNum 1); Some (VObj 2)]);
    by apply (bool_decide_unpack _).
Defined.

(** ** The listener set under [sub] and [unsub] *)

Lemma unsub_absent_subscribers (c : Container) (s : Subscriber) :
  s ∉ subscribers c → subscribers (unsub c s) = subscribers c.
Proof. intros Hs. simpl. by apply filter_other_id. Qed.

Lemma filter_added_last (s : Subscriber) (l : list Subscriber) :
  s ∉ l → filter (λ s', s' ≠ s) (l ++ [s]) = l.
Proof.
  intros Hs. rewrite filter_app, filter_other_id by done.
  by rewrite filter_cons_False, filter_nil, app_nil_r by tauto.
Qed.

(** X5. Subscribing a listener that is subscribed already changes nothing:
    a second [sub] of the same listener leaves the container as the first
    left it. *)
Theorem sub_idempotent (c : Container) (s : Subscriber) :
  sub (sub c s) s = sub c s.
Proof.
  unfold sub at 2 3. destruct (decide (s ∈ subscribers c)) as [Hs | Hs].
  - unfold sub. by rewrite decide_True.
  - unfold sub. simpl. rewrite decide_True; [done |].
    apply elem_of_app. right. by apply list_elem_of_singleton.
Qed.

(** X6. [sub] and then [unsub] of a listener that was not subscribed gives the
    container back: its state and the other listeners in their order. *)
Theorem unsub_sub (c : Container) (s : Subscriber) :
  s ∉ subscribers c → unsub (sub c s) s = c.
Proof.
  intros Hs. unfold sub. rewrite decide_False by done. unfold unsub. simpl.
  rewrite filter_added_last by done. by destruct c.
Qed.

Lemma unsub_sub_witness : unsub (sub {| state := VObj 1; subscribers := [4; 6] |} 5) 5
                          = {| state := VObj 1; subscribers := [4; 6] |}.
Proof.
  apply (unsub_sub {| state := VObj 1; subscribers := [4; 6] |} 5).
  by apply (bool_decide_unpack _).
Defined.

Lemma set_call_NoDup (c : Container) (o : SetCall) :
  NoDup (subscribers c) → NoDup (subscribers (set_call c o)).
Proof.
  intros Hc. destruct o as [s | s]; simpl; [by apply sub_NoDup | by apply NoDup_filter].
Qed.

Lemma set_call_state (c : Container) (o : SetCall) : state (set_call c o) = state c.
Proof. destruct o as [s | s]; simpl; [| done]. unfold sub. by destruct (decide _). Qed.

(** X7. Whatever [sub] and [unsub] calls are made on a new container, in
    whatever order, the listener set never holds a listener twice and the
    state is not touched; a listener is in the set exactly when the last
    call that named it was a [sub]. *)
Theorem set_calls_invariant (calls : list SetCall) :
  let c := foldl set_call new_Container calls in
  NoDup (subscribers c) ∧ state c = VUndefined ∧
  ∀ s, s ∈ subscribers c ↔
       ∃ before after, calls = before ++ Sub s :: after ∧
                       (Sub s ∉ after) ∧ (Unsub s ∉ after).
Proof.
  induction calls as [|o calls IH] using rev_ind; simpl.
  - split; [constructor |]. split; [done |]. intros s. split.
    + by intros ?%elem_of_nil.
    + intros (before & after & Heq & _). by destruct before.
  - rewrite foldl_app. simpl. destruct IH as (Hnodup & Hstate & Hmem).
    split; [by apply set_call_NoDup |]. split; [by rewrite set_call_state |].
    intros s. split.
    + intros Hs. destruct o as [s' | s']; simpl in Hs.
      * unfold sub in Hs. destruct (decide (s = s')) as [<- | Hne].
        -- exists calls, []. split; [done |]. split; by intros ?%elem_of_nil.
        -- assert (Hold : s ∈ subscribers (foldl set_call new_Container calls)).
           { destruct (decide _); [done |]. simpl in Hs.
             apply elem_of_app in Hs as [? | ?%list_elem_of_singleton]; done. }
           apply Hmem in Hold as (before & after & -> & Hsub & Hunsub).
           exists before, (after ++ [Sub s']). rewrite <- app_assoc. split; [done |].
           split; intros [? | ?%list_elem_of_singleton]%elem_of_app; congruence.
      * apply list_elem_of_filter in Hs as [Hne Hold].
        apply Hmem in Hold as (before & after & -> & Hsub & Hunsub).
        exists before, (after ++ [Unsub s']). rewrite <- app_assoc. split; [done |].
        split; intros [? | ?%list_elem_of_singleton]%elem_of_app; congruence.
    + intros (before & after & Heq & Hsub & Hunsub).
      destruct after as [|o' after _] using rev_ind.
      * apply app_inj_tail in Heq as [-> ->]. simpl. unfold sub.
        destruct (decide _); [done |]. simpl. apply elem_of_app. right.
        by apply list_elem_of_singleton.
      * rewrite app_comm_cons, app_assoc in Heq. apply app_inj_tail in Heq as [-> ->].
        assert (Hold : s ∈ subscribers (foldl set_call new_Container (before ++ Sub s :: after))).
        { apply Hmem. exists before, after. split; [done |].
          split; intros ?; [apply Hsub | apply Hunsub]; apply elem_of_app; by left. }
        destruct o' as [s' | s']; simpl.
        -- unfold sub. destruct (decide _); [done |]. simpl. apply elem_of_app. by left.
        -- apply list_elem_of_filter. split; [| done]. intros ->. apply Hunsub.
           apply elem_of_app. right. by apply list_elem_of_singleton.
Qed.

(** ** The [Processor] over many renders *)

Lemma Processor_update_cases (arrays : gmap loc array) (inst : ProcessorInst)
    (nextProps : Processor.Props) :
  (areEqual arrays (rendered inst) nextProps = true ∧
   Processor_update arrays inst nextProps = inst) ∨
  (areEqual arrays (rendered inst) nextProps = false ∧
   Processor_update arrays inst nextProps =
     Processor_render arrays nextProps (invocations inst) (reported inst)).
Proof. unfold Processor_update. destruct (areEqual _ _ _); [by left | by right]. Qed.

Lemma Processor_updates_invariant (P : ProcessorInst → Prop) (arrays : gmap loc array) :
  (∀ props invoked reports, P (Processor_render arrays props invoked reports)) →
  ∀ renders inst, P inst → P (Processor_updates arrays inst renders).
Proof.
  intros Hrender renders. unfold Processor_updates.
  induction renders as [|p renders IH]; intros inst Hinst; [done |].
  simpl. apply IH.
  destruct (Processor_update_cases arrays inst p) as [[_ ->] | [_ ->]]; [done |].
  apply Hrender.
Qed.

(** X8. Through a mount and any number of renders by the parent, the latest
    result handed to [onChange] is the result of the model last rendered on
    the argument vector last rendered (spread), and the latest invocation
    was made with that vector. *)
Theorem Processor_reports_latest (arrays : gmap loc array) (props : Processor.Props)
    (renders : list Processor.Props) :
  let inst := Processor_updates arrays (Processor_mount arrays props) renders in
  let a := args_or_empty arrays (Processor.args (rendered inst)) in
  last (invocations inst) = Some a ∧
  last (reported inst) = Some (run (Processor.model (rendered inst)) (spread a)).
Proof.
  apply (Processor_updates_invariant
           (λ inst, let a := args_or_empty arrays (Processor.args (rendered inst)) in
                    last (invocations inst) = Some a ∧
                    last (reported inst)
                    = Some (run (Processor.model (rendered inst)) (spread a)))).
  - intros p invoked reports. simpl. by rewrite !last_snoc.
  - unfold Processor_mount. simpl. done.
Qed.

Lemma Processor_updates_snoc (arrays : gmap loc array) (inst : ProcessorInst)
    (renders : list Processor.Props) (p : Processor.Props) :
  Processor_updates arrays inst (renders ++ [p]) =
  Processor_update arrays (Processor_updates arrays inst renders) p.
Proof. unfold Processor_updates. by rewrite foldl_app. Qed.

(** X9. Without [memo] every render by the parent invokes the model: after the
    mount and the renders, the invocations are one per render, each with
    the argument vector of its render, in order. *)
Theorem Processor_without_memo (arrays : gmap loc array) (props : Processor.Props)
    (renders : list Processor.Props) :
  Forall (λ p, Processor.memo p ≠ Some true) renders →
  invocations (Processor_updates arrays (Processor_mount arrays props) renders) =
    (λ p, args_or_empty arrays (Processor.args p)) <$> (props :: renders).
Proof.
  induction renders as [|p renders IH] using rev_ind; intros Hmemo; [done |].
  apply Forall_app in Hmemo as [Hrenders [Hp _]%Forall_cons].
  rewrite Processor_updates_snoc.
  set (inst := Processor_updates arrays (Processor_mount arrays props) renders) in *.
  destruct (Processor_update_cases arrays inst p) as [[Heq _] | [_ ->]].
  - apply areEqual_true in Heq as [Hyes _]. done.
  - unfold Processor_render. cbn [invocations]. rewrite IH by done.
    change (props :: renders ++ [p]) with ((props :: renders) ++ [p]).
    by rewrite fmap_app.
Qed.

Lemma Processor_without_memo_witness :
  invocations (Processor_updates {[ 1 := [Some (VNum 5)] ]}
                 (Processor_mount {[ 1 := [Some (VNum 5)] ]}
                    {| Processor.model := Counter; Processor.args := Some 1;
                       Processor.memo := None |})
                 [ {| Processor.model := Counter; Processor.args := Some 1;
                      Processor.memo := Some false |} ]) =
    (λ p, args_or_empty {[ 1 := [Some (VNum 5)] ]} (Processor.args p)) <$>
      [ {| Processor.model := Counter; Processor.args := Some 1; Processor.memo := None |};
        {| Processor.model := Counter; Processor.args := Some 1;
           Processor.memo := Some false |} ].
Proof.
  apply (Processor_without_memo {[ 1 := [Some (VNum 5)] ]}
           {| Processor.model := Counter; Processor.args := Some 1; Processor.memo := None |}
           [ {| Processor.model := Counter; Processor.args := Some 1;
                Processor.memo := Some false |} ]).
  repeat constructor. discriminate.
Defined.

(** X10. With [memo], renders that pass the array of the mount again, or an
    array shallow-equal to it, never invoke anything: the model of the
    mount was invoked once, and nothing else is looked at, so a render
    that passes another [model] is skipped as well. *)
Theorem Processor_memo_invokes_once (arrays : gmap loc array) (props : Processor.Props)
    (renders : list Processor.Props) :
  Forall (λ p, Processor.memo p = Some true ∧
               (Processor.args props = Processor.args p ∨
                shallow_equal (args_or_empty arrays (Processor.args props))
                              (args_or_empty arrays (Processor.args p)))) renders →
  Processor_updates arrays (Processor_mount arrays props) renders =
    Processor_mount arrays props.
Proof.
  induction renders as [|p renders IH] using rev_ind; intros Hmemo; [done |].
  apply Forall_app in Hmemo as [Hrenders [Hp _]%Forall_cons].
  rewrite Processor_updates_snoc, IH by done.
  apply Processor_update_skip. apply areEqual_true.
  destruct Hp as [Hmemo' [Hsame | Hshallow]]; (split; [done |]); [by left | right].
  by apply shallow_equal_where_filled.
Qed.

Lemma Processor_memo_invokes_once_witness :
  Processor_updates {[ 1 := [Some (VNum 5)]; 2 := [Some (VNum 5)] ]}
    (Processor_mount {[ 1 := [Some (VNum 5)]; 2 := [Some (VNum 5)] ]}
       {| Processor.model := Counter; Processor.args := Some 1; Processor.memo := None |})
    [ {| Processor.model := Zero; Processor.args := Some 1; Processor.memo := Some true |} ]
  = Processor_mount {[ 1 := [Some (VNum 5)]; 2 := [Some (VNum 5)] ]}
      {| Processor.model := Counter; Processor.args := Some 1; Processor.memo := None |}.
Proof.
  apply (Processor_memo_invokes_once {[ 1 := [Some (VNum 5)]; 2 := [Some (VNum 5)] ]}
           {| Processor.model := Counter; Processor.args := Some 1; Processor.memo := None |}
           [ {| Processor.model := Zero; Processor.args := Some 1;
                Processor.memo := Some true |} ]).
  repeat constructor.
Defined.

(** ** Contexts and mounted [Provider]s *)

Lemma getModelContext_lookup (m : Model) (container : option loc) (w : World) :
  contexts (getModelContext m container w).2 !! model_id m
  = Some (getModelContext m container w).1.
Proof.
  unfold getModelContext. destruct (contexts w !! model_id m) eqn:Hm; [done |].
  destruct container; simpl; apply lookup_insert_eq.
Qed.

Lemma getModelContext_keeps (m : Model) (container : option loc) (w : World)
    (k : nat) (ctx : Context) :
  contexts w !! k = Some ctx → contexts (getModelContext m container w).2 !! k = Some ctx.
Proof.
  intros Hk. unfold getModelContext. destruct (contexts w !! model_id m) eqn:Hm; [done |].
  assert (model_id m ≠ k) by congruence.
  destruct container; simpl; by rewrite lookup_insert_ne.
Qed.

Lemma contexts_wf_empty : contexts_wf empty_World.
Proof. split; intros *; simpl; by rewrite lookup_empty. Qed.

Lemma getModelContext_wf (m : Model) (container : option loc) (w : World) :
  contexts_wf w → contexts_wf (getModelContext m container w).2.
Proof.
  intros [Hbound Hinj]. unfold getModelContext.
  destruct (contexts w !! model_id m) eqn:Hm; [done |].
  assert (Hgoal : ∀ w1 d, contexts w1 = contexts w → next_context w1 = next_context w →
                          contexts_wf (createContext d m w1).2).
  { intros w1 d Hc Hn. unfold createContext. split; simpl; rewrite Hc, Hn.
    - intros k ctx [[<- <-] | [Hne Hk]]%lookup_insert_Some; simpl; [lia |].
      apply Hbound in Hk. lia.
    - intros k1 k2 ctx1 ctx2 [[<- <-] | [Hne1 Hk1]]%lookup_insert_Some
                             [[<- <-] | [Hne2 Hk2]]%lookup_insert_Some; simpl; intros Hid.
      + done.
      + apply Hbound in Hk2. lia.
      + apply Hbound in Hk1. lia.
      + by apply (Hinj k1 k2 ctx1 ctx2). }
  destruct container; by apply Hgoal.
Qed.

(** X11. Two different models never share a context: in a world whose contexts
    are told apart by their ids (as in the empty world and in every world
    reached from it by [getModelContext]), the contexts returned for two
    models are different objects, whatever containers are passed, and a
    later call for the first model still returns its own. *)
Theorem getModelContext_distinct_models (m1 m2 : Model) (c1 c2 c3 : option loc) (w : World) :
  contexts_wf w →
  model_id m1 ≠ model_id m2 →
  let r1 := getModelContext m1 c1 w in
  let r2 := getModelContext m2 c2 r1.2 in
  context_id r1.1 ≠ context_id r2.1 ∧
  (getModelContext m1 c3 r2.2).1 = r1.1 ∧
  contexts_wf r2.2.
Proof.
  intros Hwf Hne r1 r2.
  assert (Hwf2 : contexts_wf r2.2) by (by apply getModelContext_wf, getModelContext_wf).
  assert (H1 : contexts r2.2 !! model_id m1 = Some r1.1)
    by apply getModelContext_keeps, getModelContext_lookup.
  assert (H2 : contexts r2.2 !! model_id m2 = Some r2.1) by apply getModelContext_lookup.
  split; [| split; [| done]].
  - intros Hid. apply Hne. by apply (proj2 Hwf2 _ _ _ _ H1 H2).
  - by rewrite (getModelContext_bound _ _ _ _ H1).
Qed.

Lemma getModelContext_distinct_models_witness :
  let r1 := getModelContext Counter None empty_World in
  let r2 := getModelContext Zero (Some 3) r1.2 in
  context_id r1.1 ≠ context_id r2.1 ∧
  (getModelContext Counter (Some 3) r2.2).1 = r1.1 ∧
  contexts_wf r2.2.
Proof.
  apply (getModelContext_distinct_models Counter Zero None (Some 3) (Some 3) empty_World).
  - apply contexts_wf_empty.
  - simpl. lia.
Defined.

Lemma getModelContext_containers (m : Model) (c : loc) (w : World) :
  containers (getModelContext m (Some c) w).2 = containers w.
Proof. unfold getModelContext. by destruct (contexts w !! model_id m). Qed.

Lemma Provider_mount_facts (p : ProviderProps) (w : World) :
  let inst := (Provider_mount p w).1.1 in
  let ctx := (Provider_mount p w).1.2 in
  let w' := (Provider_mount p w).2 in
  containers w !! container inst = None ∧
  containers w' = <[container inst := new_Container]> (containers w) ∧
  isReady inst = false ∧
  contexts w' !! model_id (model p) = Some ctx ∧
  match contexts w !! model_id (model p) with
  | Some ctx0 => ctx = ctx0
  | None => defaultValue ctx = container inst
  end.
Proof.
  unfold Provider_mount.
  destruct (alloc_Container w) as [c w1] eqn:Halloc.
  pose proof (alloc_Container_fresh w) as Hfresh. rewrite Halloc in Hfresh. simpl in Hfresh.
  assert (Hw1 : w1 = with_containers <[c := new_Container]> w).
  { unfold alloc_Container in Halloc. by injection Halloc as <- <-. }
  pose proof (getModelContext_lookup (model p) (Some c) w1) as Hlook.
  pose proof (getModelContext_containers (model p) c w1) as Hcont.
  assert (Hctx : match contexts w !! model_id (model p) with
                 | Some ctx0 => (getModelContext (model p) (Some c) w1).1 = ctx0
                 | None => defaultValue (getModelContext (model p) (Some c) w1).1 = c
                 end).
  { unfold getModelContext. rewrite Hw1. simpl.
    by destruct (contexts w !! model_id (model p)). }
  destruct (getModelContext (model p) (Some c) w1) as [ctx w2]. simpl in *.
  split; [done |]. split; [by rewrite Hcont, Hw1 |]. done.
Qed.

(** X12. A [Provider] that mounts makes a container of its own: a new object,
    empty (no state, no listener), every other container left as it was.
    It is not ready, so its children are withheld.  The model's context is
    the one the model had; when the model had none, the context is made
    with this provider's container as its default value. *)
Theorem Provider_mount_fresh (p : ProviderProps) (w : World) (children : ReactNode) :
  let inst := (Provider_mount p w).1.1 in
  let ctx := (Provider_mount p w).1.2 in
  let w' := (Provider_mount p w).2 in
  containers w !! container inst = None ∧
  containers w' = <[container inst := new_Container]> (containers w) ∧
  Provider_children inst children = None ∧
  contexts w' !! model_id (model p) = Some ctx ∧
  match contexts w !! model_id (model p) with
  | Some ctx0 => ctx = ctx0
  | None => defaultValue ctx = container inst
  end.
Proof.
  intros inst ctx w'.
  destruct (Provider_mount_facts p w) as (Hnew & Hcont & Hready & Hctx & Hdefault).
  fold inst in Hnew, Hcont, Hready, Hdefault. fold ctx in Hctx, Hdefault.
  fold w' in Hcont, Hctx.
  unfold Provider_children. rewrite Hready. done.
Qed.

(** X13. Two [Provider]s of one model, mounted one after the other, pass down
    the same context and own different containers: what a consumer reads
    depends on which provider is above it. *)
Theorem Provider_mount_twice (p1 p2 : ProviderProps) (w : World) :
  model_id (model p1) = model_id (model p2) →
  let r1 := Provider_mount p1 w in
  let r2 := Provider_mount p2 r1.2 in
  r2.1.2 = r1.1.2 ∧
  container r2.1.1 ≠ container r1.1.1 ∧
  containers r2.2 !! container r1.1.1 = Some new_Container ∧
  containers r2.2 !! container r2.1.1 = Some new_Container.
Proof.
  intros Hid r1 r2.
  destruct (Provider_mount_facts p1 w) as (_ & Hc1 & _ & Hctx1 & _).
  destruct (Provider_mount_facts p2 r1.2) as (Hnew & Hc2 & _ & _ & Hctx2).
  fold r1 in Hc1, Hctx1, Hnew, Hc2, Hctx2. fold r2 in Hnew, Hc2.
  rewrite <- Hid, Hctx1 in Hctx2.
  assert (Hne : container r2.1.1 ≠ container r1.1.1).
  { intros Heq. rewrite Heq, Hc1, lookup_insert_eq in Hnew. done. }
  split; [done |]. split; [done |].
  rewrite Hc2, Hc1. split.
  - by rewrite lookup_insert_ne, lookup_insert_eq.
  - by rewrite lookup_insert_eq.
Qed.

Lemma Provider_mount_twice_witness :
  let r1 := Provider_mount counterProps empty_World in
  let r2 := Provider_mount counterProps r1.2 in
  r2.1.2 = r1.1.2 ∧
  container r2.1.1 ≠ container r1.1.1 ∧
  containers r2.2 !! container r1.1.1 = Some new_Container ∧
  containers r2.2 !! container r2.1.1 = Some new_Container.
Proof.
  apply (Provider_mount_twice counterProps counterProps empty_World). reflexivity.
Defined.


(** ** Reports, listeners and consumers *)



Lemma subscriber_Normal (id : Subscriber) (w w' : World) :
  subscriber id w = Normal w' →
  containers w' = containers w ∧ contexts w' = contexts w ∧ cells w' = cells w ∧
  functions w' = functions w ∧
  (∀ id', id' ≠ id → hooks w' !! id' = hooks w !! id') ∧
  (∀ h, hooks w !! id = Some h →
     ∃ h', subscriber_body (container_state w (hook_container h)) h = Normal h' ∧
           hooks w' !! id = Some h').
Proof.
  unfold subscriber. destruct (hooks w !! id) as [h |] eqn:Hh.
  - destruct (subscriber_body _ h) as [h' | e] eqn:Hbody; [| done].
    intros [= <-]. simpl. repeat split; try done.
    + intros id' Hne. by rewrite lookup_insert_ne.
    + intros h0 [= <-]. exists h'. by rewrite lookup_insert_eq.
  - intros [= <-]. repeat split; try done.
Qed.


Lemma reached_subscriber (subs : list Subscriber) (w : World) :
  containers (reached subscriber subs w) = containers w ∧
  contexts (reached subscriber subs w) = contexts w ∧
  cells (reached subscriber subs w) = cells w.
Proof.
  revert w. induction subs as [|s subs IH]; intros w; simpl; [done |].
  destruct (subscriber s w) as [w1 | e] eqn:Hs; [| done].
  apply subscriber_Normal in Hs as (Hc & Hx & Hr & _).
  destruct (IH w1) as (-> & -> & ->). done.
Qed.




Lemma onChange_instance (call : Subscriber → World → completion World)
    (p : ProviderInst) (v : value) (w : World) :
  (onChange call p v w).1.1 =
    if negb (isReady p)
    then {| props := props p; container := container p; isReady := true |}
    else p.
Proof. unfold onChange. by destruct (notify call _ _). Qed.

Lemma report_containers (p : ProviderInst) (v : value) (w : World) (c : Container) :
  containers w !! container p = Some c →
  containers (report p v w) = <[container p := set_state v c]> (containers w).
Proof.
  intros Hc. unfold report.
  destruct (reached_subscriber
              (subscribers (default new_Container
                              (containers (onChange_writes p v w) !! container p)))
              (onChange_writes p v w)) as (-> & _).
  by destruct (onChange_writes_facts p v w c Hc) as (-> & _).
Qed.

(** X15. The reports of a [Provider] keep its container current, whether or
    not a listener throws: after any reports the container holds the value
    reported last and the listeners it had; the provider is ready, and
    shows its children, from the first report on. *)
Theorem reports_keep_container_current (p : ProviderInst) (vs : list value) (w : World)
    (c : Container) (children : ReactNode) :
  containers w !! container p = Some c →
  let p' := (reports p vs w).1 in
  let w' := (reports p vs w).2 in
  container p' = container p ∧
  containers w' !! container p = Some (set_state (default (state c) (last vs)) c) ∧
  Provider_children p' children =
    if decide (vs = []) then Provider_children p children else Some children.
Proof.
  revert p w c. induction vs as [|v vs IH]; intros p w c Hc; [by destruct c |].
  simpl. rewrite onChange_instance.
  set (p1 := if negb (isReady p)
             then {| props := props p; container := container p; isReady := true |}
             else p).
  assert (Hp1 : container p1 = container p) by (unfold p1; by destruct (isReady p)).
  assert (Hready : isReady p1 = true) by (unfold p1; by destruct (isReady p) eqn:Hr).
  assert (Hc1 : containers (report p v w) !! container p1 = Some (set_state v c))
    by (by rewrite Hp1, (report_containers p v w c Hc), lookup_insert_eq).
  destruct (IH p1 (report p v w) (set_state v c) Hc1) as (Hp & Hcont & Hch).
  rewrite Hp1 in Hp, Hcont.
  split; [done |]. split.
  - rewrite Hcont. simpl. f_equal. unfold set_state. simpl. f_equal.
    destruct vs as [|v' vs]; [done |]. rewrite last_cons_cons.
    destruct (last (v' :: vs)) eqn:Hlast; [done |]. by apply last_None in Hlast.
  - rewrite Hch. unfold Provider_children. rewrite Hready.
    by destruct (decide (vs = [])).
Qed.

Lemma reports_keep_container_current_witness :
  let p' := (reports counter_provider [VObj 2; VObj 3] world_mounted).1 in
  let w' := (reports counter_provider [VObj 2; VObj 3] world_mounted).2 in
  container p' = container counter_provider ∧
  containers w' !! container counter_provider
    = Some (set_state (default (state {| state := VObj 1; subscribers := [7] |})
                         (last [VObj 2; VObj 3]))
              {| state := VObj 1; subscribers := [7] |}) ∧
  Provider_children p' (Text "page") =
    if decide ([VObj 2; VObj 3] = []) then Provider_children counter_provider (Text "page")
    else Some (Text "page").
Proof.
  apply (reports_keep_container_current counter_provider [VObj 2; VObj 3] world_mounted
           {| state := VObj 1; subscribers := [7] |} (Text "page")).
  reflexivity.
Defined.



(** ** Mounting and unmounting a consumer *)

(** X18. The effect of [useModel] followed by its cleanup leaves every container
    as it was before the effect, when the call was not subscribed before;
    after the cleanup the call is in no listener set of its container,
    and unmounting drops its cells only. *)
Theorem useModel_effect_cleanup (id : Subscriber) (w : World) (h : Hook) (c : Container) :
  hooks w !! id = Some h →
  containers w !! hook_container h = Some c →
  id ∉ subscribers c →
  containers (useModel_effect id w) !! hook_container h = Some (sub c id) ∧
  id ∈ subscribers (sub c id) ∧
  containers (useModel_cleanup id (useModel_effect id w)) = containers w ∧
  containers (useModel_unmount id (useModel_effect id w)) = containers w ∧
  hooks (useModel_unmount id (useModel_effect id w)) = delete id (hooks w).
Proof.
  intros Hh Hc Hid.
  assert (Heff : useModel_effect id w =
                 with_containers (alter (λ c, sub c id) (hook_container h)) w)
    by (unfold useModel_effect; by rewrite Hh).
  assert (Hclean : containers (useModel_cleanup id (useModel_effect id w)) = containers w).
  { unfold useModel_cleanup. rewrite Heff. simpl. rewrite Hh. simpl.
    apply map_eq. intros l. destruct (decide (hook_container h = l)) as [<- | Hne].
    - rewrite !lookup_alter_eq, Hc. simpl. unfold sub. rewrite decide_False by done.
      unfold unsub. simpl. rewrite filter_added_last by done. by destruct c.
    - by rewrite !lookup_alter_ne. }
  split; [rewrite Heff; simpl; by rewrite lookup_alter_eq, Hc |].
  split.
  { unfold sub. rewrite decide_False by done. simpl. apply elem_of_app. right.
    by apply list_elem_of_singleton. }
  split; [done |]. split; [done |].
  unfold useModel_unmount, useModel_cleanup. rewrite Heff. simpl. by rewrite Hh.
Qed.

Lemma useModel_effect_cleanup_witness :
  let w := (useModel Counter None counter_scope 7
              (report counter_provider (VObj 1) (Provider_mount counterProps empty_World).2)).2 in
  let h := {| hook_container := 0; hook_deps := None; local_state := VObj 1;
              queue := []; depsRef := [] |} in
  let c := {| state := VObj 1; subscribers := [] |} in
  containers (useModel_effect 7 w) !! hook_container h = Some (sub c 7) ∧
  7 ∈ subscribers (sub c 7) ∧
  containers (useModel_cleanup 7 (useModel_effect 7 w)) = containers w ∧
  containers (useModel_unmount 7 (useModel_effect 7 w)) = containers w ∧
  hooks (useModel_unmount 7 (useModel_effect 7 w)) = delete 7 (hooks w).
Proof.
  intros w h c. apply (useModel_effect_cleanup 7 w h c).
  - reflexivity.
  - reflexivity.
  - by apply (bool_decide_unpack _).
Defined.

(** ** [withModel] and [Consumer] when a model is missing *)

Lemma useModel_Throw (m : Model) (deps : option Deps) (scope : gmap nat loc)
    (id : Subscriber) (w w1 : World) (e : string) :
  useModel m deps scope id w = (Throw e, w1) →
  e = not_initialized m ∨ ∃ f x, functions w f x = Throw e.
Proof.
  rewrite useModel_unfold. unfold useModel_cells.
  rewrite getModelContext_hooks.
  set (w0 := (getModelContext m None w).2).
  assert (Hf : functions w0 = functions w) by apply getModelContext_functions.
  assert (Hqueue : ∀ s q, apply_queue w0 s q = Throw e → ∃ f x, functions w f x = Throw e).
  { intros s q. revert s. induction q as [|a q IH]; intros s; [done |]. simpl.
    destruct (apply_action w0 s a) as [s' |] eqn:Ha; [apply IH |].
    intros [= ->]. destruct a; try done. simpl in Ha. rewrite Hf in Ha. by eexists _, _. }
  destruct (hooks w !! id) as [h |].
  - destruct (apply_queue w0 (local_state h) (queue h)) as [s | e'] eqn:Hq.
    + simpl. destruct (truthy s); simpl; [done |]. intros [= <- _]. by left.
    + intros [= <- _]. right. by apply (Hqueue _ _ Hq).
  - destruct (useState_initial w0 _) as [s | e'] eqn:Hinit.
    + simpl. destruct (truthy s); simpl; [done |]. intros [= <- _]. by left.
    + intros [= <- _]. right. unfold useState_initial in Hinit.
      destruct (container_state w0 _); try done. rewrite Hf in Hinit. by eexists _, _.
Qed.

Lemma withModel_loop_app (pre post : list (string * Model)) (slot : nat → Subscriber)
    (scope : gmap nat loc) :
  ∀ (i : nat) (modelList result : gmap string value) (w w1 : World),
    withModel_loop pre slot i scope modelList w = (Normal result, w1) →
    withModel_loop (pre ++ post) slot i scope modelList w =
    withModel_loop post slot (i + length pre) scope result w1.
Proof.
  induction pre as [| [name m] pre IH]; intros i modelList result w w1 Hpre; simpl in *.
  - injection Hpre as <- <-. by rewrite Nat.add_0_r.
  - destruct (useModel m None scope (slot i) w) as [[v | e] w2]; [| done].
    rewrite (IH _ _ _ _ _ Hpre). f_equal. lia.
Qed.

(** The provider of [Toggle] has reported a function, and the function
    throws when the state hook calls it as an initialiser: the error that
    leaves [useModel], and the wrapper, is the function's. *)
Example withModel_rethrows_initialiser_error :
  let w := with_functions (λ _ _, Throw "boom")
             (report toggle_provider (VFun 0) (Provider_mount toggleProps calling_World).2) in
  container_state w (container toggle_provider) = VFun 0 ∧
  (withModel [("toggle", Toggle)] (λ i, 7 + i) toggle_scope ∅ w).1 = Throw "boom".
Proof. split; reflexivity. Qed.

(** X19. The wrapper renders nothing when a model is missing: the [useModel]
    calls run in the order of [Object.keys(models)], the first one that
    throws ends the render with its error, and no later model is looked
    at.  The error is the one that names the model of the failing call,
    unless a function called by the state hook threw. *)
Theorem withModel_throws_at_first_missing (pre post : list (string * Model))
    (name : string) (m : Model) (slot : nat → Subscriber) (scope : gmap nat loc)
    (props modelList : gmap string value) (w w1 w2 : World) (e : string) :
  withModel_loop pre slot 0 scope ∅ w = (Normal modelList, w1) →
  useModel m None scope (slot (length pre)) w1 = (Throw e, w2) →
  withModel (pre ++ (name, m) :: post) slot scope props w = (Throw e, w2) ∧
  ((∀ f x, functions w1 f x ≠ Throw e) → e = not_initialized m).
Proof.
  intros Hpre Hthrow. unfold withModel.
  rewrite (withModel_loop_app _ _ _ _ _ _ _ _ _ Hpre). simpl.
  rewrite Hthrow. split; [done |]. intros Hfun.
  destruct (useModel_Throw _ _ _ _ _ _ _ Hthrow) as [-> | (f & x & Hfx)]; [done |].
  by destruct (Hfun f x).
Qed.

Lemma withModel_throws_at_first_missing_witness :
  let w := report counter_provider (VObj 1) (Provider_mount counterProps empty_World).2 in
  let w1 := (useModel Counter None counter_scope 7 w).2 in
  let w2 := (useModel Zero None counter_scope 8 w1).2 in
  withModel ([("counter", Counter)] ++ ("zero", Zero) :: [("again", Counter)])
    (λ i, 7 + i) counter_scope ∅ w
  = (Throw "The model Zero is not initialized.", w2) ∧
  ((∀ f x, functions w1 f x ≠ Throw "The model Zero is not initialized.") →
   "The model Zero is not initialized." = not_initialized Zero).
Proof.
  intros w w1 w2.
  apply (withModel_throws_at_first_missing [("counter", Counter)] [("again", Counter)]
           "zero" Zero (λ i, 7 + i) counter_scope ∅ {[ "counter" := VObj 1 ]} w w1 w2
           "The model Zero is not initialized."); reflexivity.
Defined.

(** X20. [Consumer] does not pass its [deps] prop to [useModel]: the call it
    mounts has no dependency projection, so each notification calls
    [setState] with the container's value and never throws, whatever
    [deps] the caller gave; the children are rendered with the local
    state. *)
Theorem Consumer_drops_deps (m : Model) (deps : option Deps) (children : value → ReactNode)
    (scope : gmap nat loc) (id : Subscriber) (w w' : World) (node : ReactNode) :
  hooks w !! id = None →
  Consumer m deps children scope id w = (Normal node, w') →
  ∃ h, hooks w' !! id = Some h ∧ hook_deps h = None ∧
       node = children (local_state h) ∧
       ∀ current, ∃ h', subscriber_body current h = Normal h' ∧
                        queue h' = queue h ++ [current] ∧ depsRef h' = depsRef h.
Proof.
  intros Hnew. unfold Consumer. rewrite useModel_unfold. unfold useModel_cells.
  rewrite getModelContext_hooks, Hnew.
  destruct (useState_initial _ _) as [s | e]; [| done]. simpl.
  destruct (truthy s); simpl; [| done].
  intros [= <- <-]. eexists. simpl. rewrite lookup_insert_eq.
  split; [done |]. split; [done |]. split; [done |]. intros current.
  eexists. split; [reflexivity | done].
Qed.

Lemma Consumer_drops_deps_witness :
  let w := report counter_provider (VObj 1) (Provider_mount counterProps empty_World).2 in
  let children := λ v, Text (match v with VObj _ => "object" | _ => "other" end) in
  ∃ h, hooks (Consumer Counter (Some same_key) children counter_scope 7 w).2 !! 7 = Some h ∧
       hook_deps h = None ∧
       Text "object" = children (local_state h) ∧
       ∀ current, ∃ h', subscriber_body current h = Normal h' ∧
                        queue h' = queue h ++ [current] ∧ depsRef h' = depsRef h.
Proof.
  intros w children.
  apply (Consumer_drops_deps Counter (Some same_key) children counter_scope 7 w
           (Consumer Counter (Some same_key) children counter_scope 7 w).2 (Text "object"));
    reflexivity.
Defined.

(** ** [Providers] on a concatenation *)

Lemma nested_app (l1 l2 : list ProviderProps) (children : ReactNode) :
  nested (l1 ++ l2) children = nested l1 (nested l2 children).
Proof. induction l1 as [|p l1 IH]; simpl; [done | by rewrite IH]. Qed.

(** X21. [Providers] composes: the element for an array that holds the entries
    of a first array followed by those of a second is the element for the
    first array around the element for the second. *)
Theorem Providers_app (both first second : loc) (l1 l2 : list ProviderProps)
    (children : ReactNode) (arrays : gmap loc (list ProviderProps)) :
  arrays !! both = Some (l1 ++ l2) →
  arrays !! first = Some l1 →
  arrays !! second = Some l2 →
  first ≠ second →
  (Providers both children arrays).1 =
  (Providers first (Providers second children arrays).1 (Providers second children arrays).2).1.
Proof.
  intros Hboth Hfirst Hsecond Hne.
  rewrite (Providers_run _ _ _ _ Hboth), (Providers_run _ _ _ _ Hsecond). cbn [fst snd].
  assert (Hfirst' : <[second := reverse l2]> arrays !! first = Some l1)
    by (by rewrite lookup_insert_ne).
  rewrite (Providers_run _ _ _ _ Hfirst'). cbn [fst]. apply nested_app.
Qed.

Lemma Providers_app_witness :
  let arrays : gmap loc (list ProviderProps) :=
    {[ 1 := [counterProps]; 2 := [zeroProps]; 3 := [counterProps] ++ [zeroProps] ]} in
  (Providers 3 (Text "page") arrays).1 =
  (Providers 1 (Providers 2 (Text "page") arrays).1 (Providers 2 (Text "page") arrays).2).1.
Proof.
  intros arrays.
  apply (Providers_app 3 1 2 [counterProps] [zeroProps] (Text "page") arrays).
  - reflexivity.
  - reflexivity.
  - reflexivity.
  - lia.
Defined.
